(** * lixo: volume labelling and per-region mesh refinement

    A shallow embedding of the four scripts [meshpyvista.py],
    [meshpyvista3.py], [meshpyvista5.py] and [meshpyvista7.py].

    - NumPy arrays are nested lists; integer arrays hold [Z], with the
      [int32] and [uint8] element types written out as wrap-around, and the
      labelling is also given over any element type with its cast to
      [uint8], [float64] among them.
    - [cv2.connectedComponents] and the PyVista/VTK filters are libraries the
      scripts call, not code of the scripts: they enter as parameters together
      with the part of their documented contract that a property needs.
    - Python floats ([--reduction], the threshold windows) are IEEE binary64,
      that is Rocq's primitive [float].
    - Exceptions and the side effects of [main] (console, render scene, files
      written) are threaded through a small state-and-exception monad. *)

From Stdlib Require Import ZArith List Bool Lia String Ascii DecimalString DecimalNat
  Floats Sorted.
From stdpp Require Import base tactics option list numbers sets.

(* Decimal float literals denote the nearest binary64 value, as in Python. *)
Set Warnings "-inexact-float".

Local Open Scope Z_scope.

(** ** NumPy arrays *)

Module Np.

(** One page of the stack ([volume[i]], a 2-D array) and the whole stack. *)
Abbreviation Slice := (list (list Z)) (only parsing).
Abbreviation Volume := (list (list (list Z))) (only parsing).

(** Two's-complement reduction into the range of [np.int32]. *)
Definition wrap_int32 (z : Z) : Z := (z + 2 ^ 31) mod 2 ^ 32 - 2 ^ 31.

Definition int32_max : Z := 2 ^ 31 - 1.

(** [page.astype(np.uint8)] on an integer page: reduction modulo 256.  (The
    cast of a [float64] page is in [Dtype].) *)
Definition astype_uint8 (page : Slice) : Slice :=
  map (map (fun v => v mod 256)) page.

(** [np.zeros_like(volume, dtype=np.int32)]. *)
Definition zeros_like (volume : Volume) : Volume :=
  map (map (map (fun _ => 0))) volume.

(** [a[i, y, x]], when the index is in range. *)
Definition voxel (a : Volume) (i y x : nat) : option Z :=
  a !! i ≫= (fun page => page !! y ≫= (fun row => row !! x)).

(** All the elements of a page and of a volume, in raster order. *)
Definition ravel2 (page : Slice) : list Z := concat page.
Definition ravel (a : Volume) : list Z := concat (map ravel2 a).

(** The largest element of a label volume; labels are non-negative, and the
    maximum over no element at all is taken to be 0. *)
Definition max_label (a : Volume) : Z := foldr Z.max 0 (ravel a).

(** [np.unique]: sort, then drop every element equal to its predecessor. *)
Fixpoint insert_sorted (x : Z) (l : list Z) : list Z :=
  match l with
  | [] => [x]
  | y :: t => if x <=? y then x :: l else y :: insert_sorted x t
  end.

Definition sort (l : list Z) : list Z := foldr insert_sorted [] l.

Fixpoint drop_repeats (l : list Z) : list Z :=
  match l with
  | [] => []
  | x :: t =>
      match t with
      | [] => [x]
      | y :: _ => if x =? y then drop_repeats t else x :: drop_repeats t
      end
  end.

Definition unique (l : list Z) : list Z := drop_repeats (sort l).

End Np.

(** ** OpenCV's connected-component labelling *)

Module Cv2.
Import Np.

(** What [cv2.connectedComponents(image)] promises about its result
    [(num_labels, labels)] on an 8-bit single-channel [image]: there are
    [num_labels] labels [0 .. num_labels - 1], label 0 is the background,
    [labels] has the shape of [image], a pixel has label 0 exactly when it
    is 0 in [image], and every label from 1 to [num_labels - 1] is carried
    by some pixel. *)
Definition pixel_ok (num_labels v l : Z) : Prop :=
  (l = 0 ↔ v = 0) ∧ 0 ≤ l < num_labels.

Record contract (image : Slice) (out : Z * Slice) : Prop := Contract {
  count_pos : 1 ≤ out.1;
  pixels_ok : Forall2 (Forall2 (pixel_ok out.1)) image out.2;
  labels_onto :
    Forall (fun l => Exists (fun row => l ∈ row) out.2)
           (seqZ 1 (out.1 - 1))
}.

(** The contract as a boolean test, to check it on a concrete image. *)
#[export] Instance pixel_ok_dec n v l : Decision (pixel_ok n v l).
Proof. unfold pixel_ok. apply _. Defined.

Definition contractb (image : Slice) (out : Z * Slice) : bool :=
  bool_decide (1 ≤ out.1)
  && bool_decide (Forall2 (Forall2 (pixel_ok out.1)) image out.2)
  && bool_decide (Forall (fun l => Exists (fun row => l ∈ row) out.2)
                         (seqZ 1 (out.1 - 1))).

(** A reference labelling with OpenCV's default 8-connectivity, used to run
    the scripts on concrete volumes (OpenCV may number the components of a
    page in another order; the theorems rest on the contract alone, and
    the reference is run on pages where the order is the same).  Every
    foreground pixel starts with its own raster number; each round a pixel
    takes the smallest number in its 3x3 neighbourhood; after as many
    rounds as there are pixels every component carries the number of its
    first pixel, and the numbers are then ranked 1, 2, ... *)
Definition at_yx (a : Slice) (y x : Z) : Z :=
  if (y <? 0) || (x <? 0) then 0
  else nth (Z.to_nat x) (nth (Z.to_nat y) a []) 0.

Definition neighbourhood8 : list (Z * Z) :=
  [(-1, -1); (-1, 0); (-1, 1); (0, -1); (0, 0); (0, 1); (1, -1); (1, 0); (1, 1)].

Definition min_pos (a b : Z) : Z :=
  if a =? 0 then b else if b =? 0 then a else Z.min a b.

Definition width (image : Slice) : Z :=
  foldr (fun row w => Z.max (Z.of_nat (length row)) w) 0 image.

Definition seed (image : Slice) : Slice :=
  imap (fun y row =>
          imap (fun x v =>
                  if v =? 0 then 0
                  else 1 + Z.of_nat y * width image + Z.of_nat x) row)
       image.

Definition relax (lab : Slice) : Slice :=
  imap (fun y row =>
          imap (fun x l =>
                  if l =? 0 then 0
                  else foldr (fun d acc =>
                                min_pos (at_yx lab (Z.of_nat y + d.1)
                                                   (Z.of_nat x + d.2)) acc)
                             0 neighbourhood8) row)
       lab.

Fixpoint rank_of (x : Z) (sorted : list Z) : Z :=
  match sorted with
  | [] => 0
  | y :: t => if x =? y then 1 else 1 + rank_of x t
  end.

Definition connectedComponents (image : Slice) : Z * Slice :=
  let lab := Nat.iter (length (ravel2 image)) relax (seed image) in
  let ids := unique (filter (fun l => 0 < l) (ravel2 lab)) in
  (1 + Z.of_nat (length ids),
   map (map (fun l => if l =? 0 then 0 else rank_of l ids)) lab).

End Cv2.

(** ** Python strings *)

Module Py.
Local Open Scope string_scope.

(** [str(n)] for a non-negative and for an arbitrary integer. *)
Definition str_nat (n : nat) : string :=
  NilZero.string_of_uint (Nat.to_uint n).
Definition str_Z (z : Z) : string :=
  NilZero.string_of_int (Z.to_int z).

(** [s.replace(old, new)]: every non-overlapping occurrence of [old], found
    left to right, is replaced.  [skip] counts the characters of an occurrence
    still to be dropped. *)
Fixpoint replace_from (skip : nat) (old new s : string) : string :=
  match s with
  | EmptyString => EmptyString
  | String c t =>
      match skip with
      | S k => replace_from k old new t
      | O =>
          if String.prefix old s
          then new ++ replace_from (String.length old - 1) old new t
          else String c (replace_from 0 old new t)
      end
  end.

(** With an empty [old], Python puts [new] before every character and at
    the end. *)
Fixpoint interleave (new s : string) : string :=
  match s with
  | EmptyString => new
  | String c t => new ++ String c (interleave new t)
  end.

Definition replace (old new s : string) : string :=
  match old with
  | EmptyString => interleave new s
  | _ => replace_from 0 old new s
  end.

(** [s.find(old)]: the index of the first occurrence. *)
Fixpoint find (old s : string) : option nat :=
  if String.prefix old s then Some 0%nat
  else match s with
       | EmptyString => None
       | String _ t => S <$> find old t
       end.

(** [enumerate(l, start)]. *)
Fixpoint enumerate_from {A} (start : nat) (l : list A) : list (nat * A) :=
  match l with
  | [] => []
  | x :: t => (start, x) :: enumerate_from (S start) t
  end.
Definition enumerate {A} (l : list A) : list (nat * A) := enumerate_from 0 l.

(** [float(z)] for a NumPy [int64] (exact below 2^53). *)
Definition float_of_Z (z : Z) : float :=
  if (z <? 0)%Z then PrimFloat.opp (PrimFloat.of_uint63 (Uint63.of_Z (- z)))
  else PrimFloat.of_uint63 (Uint63.of_Z z).

End Py.

(** ** The libraries the scripts call *)

Module Pv.
Import Np.

(** A raised Python exception, by its message. *)
Definition exn : Type := string.
Definition result (A : Type) : Type := exn + A.

Inductive Color :=
| Named (name : string)
| Rgb (r g b : float).

(** PyVista: datasets are opaque; every filter either returns a dataset or
    raises.  [n_cells] of a triangulated surface is its triangle count. *)
Class Kernel := {
  Mesh : Type;
  wrap : Volume → Mesh;
  threshold : float → Mesh → result Mesh;
  threshold_range : float → float → string → Mesh → result Mesh;
  extract_surface : Mesh → result Mesh;
  connectivity : Mesh → result Mesh;
  point_data : Mesh → string → result (list Z);
  smooth : nat → Mesh → result Mesh;
  triangulate : Mesh → result Mesh;
  decimate : float → Mesh → result Mesh;
  compute_normals : Mesh → result Mesh;
  add_mesh : Mesh → Color → result unit;
  save : Mesh → string → result unit;
  n_cells : Mesh → nat
}.

(** OpenCV, Pillow and NumPy's random generator. *)
Class Host := {
  connectedComponents : Slice → Z * Slice;
  rand3 : nat → float * float * float
}.

(** What a run leaves behind: the console lines, the meshes registered with
    the plotter, the files written (in the order of writing, a path written
    twice appears twice), and whether the window was shown. *)
Record World `{Kernel} := MkWorld {
  console : list string;
  scene : list (Mesh * Color);
  files : list (string * Mesh);
  shown : bool
}.

Definition empty_world `{Kernel} : World :=
  {| console := []; scene := []; files := []; shown := false |}.

(** Computations of a script: they change the world and return or raise. *)
Definition M `{Kernel} (A : Type) : Type := World → World * result A.

Section Monad.
Context `{Kernel}.

#[export] Instance M_ret : MRet M := λ A (a : A) w, (w, inr a).
#[export] Instance M_bind : MBind M := λ A B (k : A → M B) (m : M A) w,
  match m w with
  | (w', inl e) => (w', inl e)
  | (w', inr a) => k a w'
  end.

(** A library call: its exception, if any, propagates. *)
Definition call {A} (r : result A) : M A := λ w, (w, r).

(** [print(line)]. *)
Definition say (line : string) (w : World) : World :=
  {| console := console w ++ [line]; scene := scene w; files := files w;
     shown := shown w |}.

Definition print (line : string) : M unit := λ w, (say line w, inr ()).

Definition plotter_add_mesh (m : Mesh) (c : Color) : M unit := λ w,
  match add_mesh m c with
  | inl e => (w, inl e)
  | inr _ => ({| console := console w; scene := scene w ++ [(m, c)];
                 files := files w; shown := shown w |}, inr ())
  end.

Definition mesh_save (m : Mesh) (path : string) : M unit := λ w,
  match save m path with
  | inl e => (w, inl e)
  | inr _ => ({| console := console w; scene := scene w;
                 files := files w ++ [(path, m)]; shown := shown w |},
              inr ())
  end.

Definition plotter_show : M unit := λ w,
  ({| console := console w; scene := scene w; files := files w;
      shown := true |}, inr ()).

(** [for x in l: body(x)]. *)
Fixpoint for_each {A} (l : list A) (body : A → M unit) : M unit :=
  match l with
  | [] => mret ()
  | x :: t => body x ;; for_each t body
  end.

End Monad.

(** [a.b.c] on results, for chained filter calls. *)
Definition and_then {A B} (r : result A) (k : A → result B) : result B :=
  match r with
  | inl e => inl e
  | inr a => k a
  end.

End Pv.

(** ** Code shared verbatim by meshpyvista3.py, meshpyvista5.py and
       meshpyvista7.py *)

Module Shared.
Import Np Pv.
Local Open Scope string_scope.

Record Args := MkArgs {
  input : option string;
  output : option string;
  reduction : float
}.

Definition set_reduction (r : float) (args : Args) : Args :=
  MkArgs (input args) (output args) r.

(** [np.stack(pages, axis=0)]: at least one page, all of one shape. *)
Definition shape2 (page : Slice) : list nat := map length page.

Definition stack (pages : list Slice) : result Volume :=
  match pages with
  | [] => inl "need at least one array to stack"
  | p :: rest =>
      if bool_decide (Forall (fun q => shape2 q = shape2 p) rest)
      then inr pages
      else inl "all input arrays must have the same shape"
  end.

(** The pages of the file come from Pillow ([open_pages], grayscale
    conversion included); the function stacks them. *)
Definition read_multi_tiff_pillow (open_pages : string → result (list Slice))
    (file_path : string) : result Volume :=
  and_then (open_pages file_path) stack.

(** A cube of side [size] holding a ball of radius [size // 4] around
    [(size // 2, size // 2, size // 2)].  The scripts call it with 50 and
    100; for a negative [size] [np.zeros] raises, which is not modelled:
    what is proved about the array as such assumes [0 <= size]. *)
Definition create_sphere_array (size : Z) : Volume :=
  let center := size / 2 in
  let radius := size / 4 in
  map (fun x =>
    map (fun y =>
      map (fun z =>
             if (x - center) ^ 2 + (y - center) ^ 2 + (z - center) ^ 2
                <=? radius ^ 2
             then 1 else 0)%Z
          (seqZ 0 size))
        (seqZ 0 size))
      (seqZ 0 size).

End Shared.

(** ** meshpyvista.py: a fixed sphere, smoothed and shown *)

Module Meshpyvista.
Import Np Pv Shared.
Local Open Scope string_scope.

Definition main `{Kernel} : M unit :=
  let binary_stack := create_sphere_array 100 in
  let wrapped := wrap binary_stack in
  thresholded ← call (threshold 0.5 wrapped);
  mesh ← call (extract_surface thresholded);
  smoothed_mesh ← call (smooth 10 mesh);
  plotter_add_mesh smoothed_mesh (Named "white");;
  plotter_show.

End Meshpyvista.

(** ** meshpyvista3.py: one smoothed surface, optionally saved *)

Module Meshpyvista3.
Import Np Pv Shared.
Local Open Scope string_scope.

Section Script.
Context `{Kernel} (open_pages : string → result (list Slice)).

Definition load_volume (args : Args) : M Volume :=
  match input args with
  | Some (String _ _ as path) =>
      print ("Loading multi-page TIFF from " ++ path ++ "...");;
      call (read_multi_tiff_pillow open_pages path)
  | _ =>
      print "No input file provided. Generating a sphere volume.";;
      mret (create_sphere_array 50)
  end.

Definition save_if_requested (args : Args) (mesh : Mesh) : M unit :=
  match output args with
  | Some (String _ _ as path) =>
      print ("Saving mesh to " ++ path ++ " ...");;
      mesh_save mesh path
  | _ => mret ()
  end.

Definition main (args : Args) : M unit :=
  volume ← load_volume args;
  let wrapped := wrap volume in
  thresholded ← call (threshold 0.5 wrapped);
  mesh ← call (extract_surface thresholded);
  smoothed_mesh ← call (smooth 10 mesh);
  save_if_requested args smoothed_mesh;;
  plotter_add_mesh smoothed_mesh (Named "white");;
  plotter_show.

End Script.
End Meshpyvista3.

(** ** meshpyvista5.py: the single-region pipeline with decimation *)

Module Meshpyvista5.
Import Np Pv Shared.
Local Open Scope string_scope.

Section Script.
Context `{Kernel} (open_pages : string → result (list Slice)).

(** Lines 79-89: smooth, triangulate, decimate, normals. *)
Definition refine (reduction : float) (mesh : Mesh) : result Mesh :=
  and_then (smooth 10 mesh) (fun smoothed_mesh =>
  and_then (triangulate smoothed_mesh) (fun tri_mesh =>
  and_then (decimate reduction tri_mesh) (fun decimated_mesh =>
  compute_normals decimated_mesh))).

Definition main (args : Args) : M unit :=
  volume ← Meshpyvista3.load_volume open_pages args;
  let wrapped := wrap volume in
  thresholded ← call (threshold 0.5 wrapped);
  mesh ← call (extract_surface thresholded);
  final_mesh ← call (refine (reduction args) mesh);
  Meshpyvista3.save_if_requested args final_mesh;;
  plotter_add_mesh final_mesh (Named "white");;
  plotter_show.

End Script.
End Meshpyvista5.

(** ** meshpyvista7.py: labelling and the per-region pipeline *)

Module Meshpyvista7.
Import Np Pv Shared.

(** [labels[labels > 0] += current_label], on an [int32] array. *)
Definition offset_labels (current_label : Z) (labels : Slice) : Slice :=
  map (map (fun l => if 0 <? l then wrap_int32 (l + current_label) else l))
      labels.

(** The body of the loop over [i in range(volume.shape[0])]; the state is
    [(labeled_volume, current_label)]. *)
Definition label_slice (cc : Slice → Z * Slice) (volume : Volume)
    (st : Volume * Z) (i : nat) : Volume * Z :=
  let '(labeled_volume, current_label) := st in
  let '(num_labels, labels) := cc (astype_uint8 (nth i volume [])) in
  (<[i := offset_labels current_label labels]> labeled_volume,
   current_label + (num_labels - 1)).

Definition label_connected_components (cc : Slice → Z * Slice)
    (volume : Volume) : Volume * Z :=
  let '(labeled_volume, current_label) :=
    foldl (label_slice cc volume) (zeros_like volume, 1)
          (seq 0 (length volume)) in
  (labeled_volume, current_label - 1).

(** The number of components OpenCV finds in one page, and the number found
    in the first [i] pages. *)
Definition slice_count (cc : Slice → Z * Slice) (page : Slice) : Z :=
  (cc (astype_uint8 page)).1 - 1.

Definition running_total (cc : Slice → Z * Slice) (volume : Volume)
    (i : nat) : Z :=
  foldr Z.add 0 (map (slice_count cc) (take i volume)).

(** What the loop writes for page [i], and what a local label [l] of page
    [i] becomes when no addition leaves the [int32] range. *)
Definition labeled_slice (cc : Slice → Z * Slice) (volume : Volume)
    (i : nat) (page : Slice) : Slice :=
  offset_labels (1 + running_total cc volume i) (cc (astype_uint8 page)).2.

Definition stored (cc : Slice → Z * Slice) (volume : Volume)
    (i : nat) (l : Z) : Z :=
  if 0 <? l then l + (1 + running_total cc volume i) else l.

(** The precondition on the library call: OpenCV keeps its contract on every
    page of the volume. *)
Definition cc_ok (cc : Slice → Z * Slice) (volume : Volume) : Prop :=
  Forall (fun page => Cv2.contract (astype_uint8 page)
                                   (cc (astype_uint8 page))) volume.


Local Open Scope string_scope.

Section Script.
Context `{Kernel} `{Host} (open_pages : string → result (list Slice)).

(** [np.random.rand(n, 3)], one colour per row. *)
Definition random_colors (n : nat) : list Color :=
  map (fun i => let '(r, g, b) := rand3 i in Rgb r g b) (seq 0 n).

(** [colors[idx]]. *)
Definition color_at (colors : list Color) (idx : nat) : M Color :=
  match colors !! idx with
  | Some c => mret c
  | None => call (inl "index out of bounds")
  end.

(** The window [[region_id - 0.1, region_id + 0.1]]. *)
Definition window (region_id : Z) : float * float :=
  (PrimFloat.sub (Py.float_of_Z region_id) 0.1,
   PrimFloat.add (Py.float_of_Z region_id) 0.1).

Definition select_region (components : Mesh) (region_id : Z) : result Mesh :=
  threshold_range (window region_id).1 (window region_id).2 "RegionId"
                  components.

(** Lines 96-99: smooth, triangulate, decimate when [reduction > 0],
    normals. *)
Definition refine (reduction : float) (submesh : Mesh) : result Mesh :=
  and_then (smooth 5 submesh) (fun submesh =>
  and_then (triangulate submesh) (fun submesh =>
  and_then (if PrimFloat.ltb 0 reduction
            then decimate reduction submesh
            else inr submesh) (fun submesh =>
  compute_normals submesh))).

(** [args.output.replace(".obj", f"_{idx}.obj")]. *)
Definition obj_path (output : string) (idx : nat) : string :=
  Py.replace ".obj" ("_" ++ Py.str_nat idx ++ ".obj") output.

(** The body of the loop over [enumerate(unique_regions)]. *)
Definition process_region (args : Args) (components : Mesh)
    (colors : list Color) (item : nat * Z) : M unit :=
  let '(idx, region_id) := item in
  submesh ← call (select_region components region_id);
  submesh ← call (refine (reduction args) submesh);
  color ← color_at colors idx;
  plotter_add_mesh submesh color;;
  match output args with
  | Some (String _ _ as out) =>
      print ("Saving component " ++ Py.str_nat idx ++ " to "
             ++ obj_path out idx ++ " ...");;
      mesh_save submesh (obj_path out idx)
  | _ => mret ()
  end.

(** What one processed region writes to disk, and the line that reports
    the component count. *)
Definition exported (args : Args) (idx : nat) (m : Mesh)
    : list (string * Mesh) :=
  match output args with
  | Some (String _ _ as out) => [(obj_path out idx, m)]
  | _ => []
  end.

Definition detected (volume : Volume) : string :=
  "Detected "
  ++ Py.str_Z (label_connected_components connectedComponents volume).2
  ++ " connected components.".

(** The loop of [main] over the regions of [components]. *)
Definition regions_loop (args : Args) (components : Mesh)
    (region_ids : list Z) : M unit :=
  for_each (Py.enumerate (Np.unique region_ids))
    (process_region args components
       (random_colors (length (Np.unique region_ids)))).

(** Lines 66-85 of [main]: load, label, extract the surface, compute its
    connectivity, read the region ids. *)
Definition prepare (args : Args) : M (Mesh * list Z) :=
  volume ← Meshpyvista3.load_volume open_pages args;
  let '(labeled_volume, num_labels) :=
    label_connected_components connectedComponents volume in
  print ("Detected " ++ Py.str_Z num_labels ++ " connected components.");;
  let wrapped := wrap labeled_volume in
  thresholded ← call (threshold 0.5 wrapped);
  mesh ← call (extract_surface thresholded);
  components ← call (connectivity mesh);
  region_ids ← call (point_data components "RegionId");
  mret (components, region_ids).

(** Lines 85-111 of [main]: the loop over the regions, then the window. *)
Definition main (args : Args) : M unit :=
  '(components, region_ids) ← prepare args;
  let unique_regions := Np.unique region_ids in
  let colors := random_colors (length unique_regions) in
  for_each (Py.enumerate unique_regions)
           (process_region args components colors);;
  plotter_show.

End Script.
End Meshpyvista7.

(** ** Volumes of another element type

    [label_connected_components] is called on what [np.stack] returns: an
    integer array for grayscale pages and for the generated sphere, a
    [float64] array when the pages are colour pages (lines 18-19 turn them
    into floats).  The function reads its argument only through its shape
    and through [astype(np.uint8)], so it is written here once more, over
    any element type with its cast to [uint8]. *)

Module Dtype.
Import Np Meshpyvista7.

Section Cast.
Context {A : Type} (to_uint8 : A → Z).

(** [page.astype(np.uint8)]. *)
Definition astype_uint8 (page : list (list A)) : Slice :=
  map (map to_uint8) page.

(** [np.zeros_like(volume, dtype=np.int32)]. *)
Definition zeros_like (volume : list (list (list A))) : Volume :=
  map (map (map (fun _ => 0))) volume.

Definition label_slice (cc : Slice → Z * Slice) (volume : list (list (list A)))
    (st : Volume * Z) (i : nat) : Volume * Z :=
  let '(labeled_volume, current_label) := st in
  let '(num_labels, labels) := cc (astype_uint8 (nth i volume [])) in
  (<[i := offset_labels current_label labels]> labeled_volume,
   current_label + (num_labels - 1)).

Definition label_connected_components (cc : Slice → Z * Slice)
    (volume : list (list (list A))) : Volume * Z :=
  let '(labeled_volume, current_label) :=
    foldl (label_slice cc volume) (zeros_like volume, 1)
          (seq 0 (length volume)) in
  (labeled_volume, current_label - 1).

(** OpenCV keeps its contract on every page, as it is passed. *)
Definition cc_ok (cc : Slice → Z * Slice) (volume : list (list (list A)))
    : Prop :=
  Forall (fun page => Cv2.contract (astype_uint8 page)
                                   (cc (astype_uint8 page))) volume.

(** The volume as OpenCV sees it. *)
Definition as_uint8 (volume : list (list (list A))) : Volume :=
  map astype_uint8 volume.

(** A voxel that is nonzero after the cast, the number of such voxels, and
    the number of pages that hold one. *)
Definition foreground (v : A) : bool := negb (to_uint8 v =? 0).

Definition foreground_voxels (volume : list (list (list A))) : nat :=
  length (List.filter foreground (concat (map (@concat A) volume))).

Definition foreground_slices (volume : list (list (list A))) : nat :=
  length (List.filter (fun page => existsb foreground (concat page)) volume).

End Cast.

(** [a[i, y, x]] and [a.ravel()], for any element type. *)
Definition voxel {A} (a : list (list (list A))) (i y x : nat) : option A :=
  a !! i ≫= (fun page => page !! y ≫= (fun row => row !! x)).

Definition ravel {A} (a : list (list (list A))) : list A :=
  concat (map (@concat A) a).

(** The cast of an integer: reduction modulo 256. *)
Definition int_to_uint8 (v : Z) : Z := v mod 256.

(** The cast of a [float64]: the C conversion drops the fractional part; it
    is defined when what is left fits [uint8], that is for values in
    (-1, 256).  Elsewhere (also for infinities and NaN) the result is not
    defined by C; it is some byte, [undefined f mod 256]. *)
Definition trunc (f : float) : option Z :=
  match Prim2SF f with
  | S754_zero _ => Some 0
  | S754_finite s m e =>
      Some (if s then - Z.shiftl (Z.pos m) e else Z.shiftl (Z.pos m) e)
  | _ => None
  end.

Definition float_to_uint8 (undefined : float → Z) (f : float) : Z :=
  match trunc f with
  | Some t => if (0 <=? t) && (t <? 256) then t else undefined f mod 256
  | None => undefined f mod 256
  end.

End Dtype.

(** ** A stand-in for the libraries

    The scripts are run against a stand-in for PyVista.  It keeps PyVista's
    classes: [wrap] gives an [ImageData], [threshold] an
    [UnstructuredGrid], [extract_surface] a [PolyData]; [smooth],
    [decimate] and [compute_normals] are methods of [PolyData] only, and
    calling one of them on another dataset raises [AttributeError].  It
    does no geometry: a dataset is a list of cells, one per voxel that is
    kept; a cell remembers the scalar it came from, its region and its
    number of corners; and [connectivity] numbers the regions by the rank
    of the scalar, as if every labelled component were a piece of surface
    of its own. *)

Module Fixture.
Import Np Pv Shared.
Local Open Scope string_scope.

Inductive Kind := ImageData | UnstructuredGrid | PolyData.

Record Cell := MkCell { tag : Z; region : Z; corners : nat }.

Record Data := MkData { kind : Kind; cells : list Cell }.

Definition polydata (cs : list Cell) : Data := MkData PolyData cs.

Definition class_name (k : Kind) : string :=
  match k with
  | ImageData => "ImageData"
  | UnstructuredGrid => "UnstructuredGrid"
  | PolyData => "PolyData"
  end.

(** Python's message for a method the class does not have. *)
Definition no_attribute (k : Kind) (name : string) : exn :=
  "AttributeError: '" ++ class_name k ++ "' object has no attribute '"
  ++ name ++ "'".

Definition fwrap (volume : Volume) : Data :=
  MkData ImageData (map (fun v => MkCell v 0 4) (ravel volume)).

Definition fthreshold (value : float) (d : Data) : result Data :=
  inr (MkData UnstructuredGrid
         (List.filter (fun c => PrimFloat.leb value (Py.float_of_Z (tag c)))
                      (cells d))).

Definition fthreshold_range (lo hi : float) (scalars : string)
    (d : Data) : result Data :=
  if String.eqb scalars "RegionId"
  then inr (MkData UnstructuredGrid
              (List.filter
                 (fun c => PrimFloat.leb lo (Py.float_of_Z (region c))
                           && PrimFloat.leb (Py.float_of_Z (region c)) hi)
                 (cells d)))
  else inl "KeyError".

Definition fextract_surface (d : Data) : result Data :=
  inr (MkData PolyData (cells d)).

(** One region per distinct scalar, numbered from 0 in ascending order; the
    class of the dataset is kept. *)
Definition fconnectivity (d : Data) : result Data :=
  let tags := Np.unique (map tag (cells d)) in
  inr (MkData (kind d)
         (map (fun c => MkCell (tag c) (Cv2.rank_of (tag c) tags - 1)
                               (corners c)) (cells d))).

Definition fpoint_data (d : Data) (name : string) : result (list Z) :=
  if String.eqb name "RegionId" then inr (map region (cells d))
  else inl "KeyError".

(** [smooth] is a method of [PolyData].  To exercise failures, smoothing
    also raises on a mesh that holds a cell of region [fragile]. *)
Definition fsmooth (fragile : Z) (n_iter : nat) (d : Data) : result Data :=
  match kind d with
  | PolyData =>
      if existsb (fun c => region c =? fragile)%Z (cells d)
      then inl "smoothing failed"
      else inr d
  | k => inl (no_attribute k "smooth")
  end.

(** Every dataset can be triangulated; a [PolyData] stays one. *)
Definition ftriangulate (d : Data) : result Data :=
  inr (MkData (match kind d with
               | PolyData => PolyData
               | _ => UnstructuredGrid
               end)
         (flat_map (fun c => repeat (MkCell (tag c) (region c) 3)
                                    (corners c - 2)) (cells d))).

(** [decimate] is a method of [PolyData].  With a factor greater than 0 the
    stand-in keeps the first half of the triangles; with the factor 0 it
    keeps all of them, as the library does. *)
Definition fdecimate (target_reduction : float) (d : Data) : result Data :=
  match kind d with
  | PolyData =>
      inr (MkData PolyData
             (if PrimFloat.ltb 0 target_reduction
              then take (Nat.div2 (S (length (cells d)))) (cells d)
              else cells d))
  | k => inl (no_attribute k "decimate")
  end.

Definition fcompute_normals (d : Data) : result Data :=
  match kind d with
  | PolyData => inr d
  | k => inl (no_attribute k "compute_normals")
  end.

Definition fadd_mesh (d : Data) (c : Color) : result unit :=
  match cells d with
  | [] => inl "Empty meshes cannot be plotted"
  | _ => inr ()
  end.

#[export] Instance kernel (fragile : Z) : Kernel := {|
  Mesh := Data;
  wrap := fwrap;
  threshold := fthreshold;
  threshold_range := fthreshold_range;
  extract_surface := fextract_surface;
  connectivity := fconnectivity;
  point_data := fpoint_data;
  smooth := fsmooth fragile;
  triangulate := ftriangulate;
  decimate := fdecimate;
  compute_normals := fcompute_normals;
  add_mesh := fadd_mesh;
  save := fun _ _ => inr ();
  n_cells := fun d => length (cells d)
|}.

(** The files Pillow can open. *)
Definition demo : Volume :=
  [[[1; 0; 1]; [0; 0; 0]]; [[0; 0; 0]; [0; 0; 0]]; [[256; 5; 5]; [0; 0; 7]]].

Definition blank : Volume :=
  [[[0; 0; 0]; [0; 0; 0]]; [[0; 0; 0]; [0; 0; 0]]].

Definition open_pages (path : string) : result (list Slice) :=
  if String.eqb path "demo.tif" then inr demo
  else if String.eqb path "blank.tif" then inr blank
  else inl "FileNotFoundError".

#[export] Instance host : Host := {|
  connectedComponents := Cv2.connectedComponents;
  rand3 := fun i => (0.25, 0.5, 0.75)%float
|}.

(** The command lines the fixture is run with, and a run from the empty
    world. *)
Definition shape_args : Args :=
  MkArgs (Some "demo.tif"%string) (Some "shape.obj"%string) 0.9.

Definition run (fragile : Z) (args : Args)
    : @World (kernel fragile) * result unit :=
  @Meshpyvista7.main (kernel fragile) host open_pages
    args empty_world.

(** What [prepare] returns on [demo.tif]. *)
Definition demo_components : Data :=
  polydata [MkCell 2 0 4; MkCell 3 1 4; MkCell 4 2 4;
            MkCell 4 2 4; MkCell 4 2 4].

Definition demo_region_ids : list Z := [0; 1; 2; 2; 2].

Definition quad : Cell := MkCell 1 0 4.
Definition tri : Cell := MkCell 1 0 3.

(** What the run on [demo.tif] ends with. *)
Definition no_smooth : exn := no_attribute UnstructuredGrid "smooth".

End Fixture.

(** ** A kernel that records the calls

    A dataset is the list of the filters that produced it, in order of the
    calls; it serves to see which filters a script calls. *)

Module Trace.
Import Pv.
Local Open Scope list_scope.

#[export] Instance kernel : Kernel := {|
  Mesh := list string;
  wrap := fun _ => ["wrap"%string];
  threshold := fun _ m => inr (m ++ ["threshold"%string]);
  threshold_range := fun _ _ _ m => inr (m ++ ["threshold"%string]);
  extract_surface := fun m => inr (m ++ ["extract_surface"%string]);
  connectivity := fun m => inr (m ++ ["connectivity"%string]);
  point_data := fun _ _ => inr [];
  smooth := fun _ m => inr (m ++ ["smooth"%string]);
  triangulate := fun m => inr (m ++ ["triangulate"%string]);
  decimate := fun _ m => inr (m ++ ["decimate"%string]);
  compute_normals := fun m => inr (m ++ ["compute_normals"%string]);
  add_mesh := fun _ _ => inr ();
  save := fun _ _ => inr ();
  n_cells := fun _ => 0%nat
|}.

End Trace.

(** ** Measures of a volume *)

Module Gauge.
Import Np.

(** A voxel OpenCV treats as foreground: nonzero after the cast to [uint8]. *)
Definition foreground (v : Z) : bool := negb (v mod 256 =? 0).

Definition foreground_voxels (volume : Volume) : nat :=
  length (List.filter foreground (ravel volume)).

Definition foreground_slices (volume : Volume) : nat :=
  length (List.filter (fun page => existsb foreground (ravel2 page)) volume).

(** [a.shape], page by page and row by row. *)
Definition shape (a : Volume) : list (list nat) := map (map length) a.

(** OpenCV's label of one voxel, before the offset. *)
Definition local_label (cc : Slice → Z * Slice) (volume : Volume)
    (i y x : nat) : option Z :=
  volume !! i ≫= (fun page =>
    (cc (astype_uint8 page)).2 !! y ≫= (fun row => row !! x)).

(** Whether [(x, y, z)] lies in the ball [create_sphere_array size] draws. *)
Definition inside (size x y z : Z) : bool :=
  (x - size / 2) ^ 2 + (y - size / 2) ^ 2 + (z - size / 2) ^ 2
  <=? (size / 4) ^ 2.

End Gauge.

(** ** Characters *)

Module Chars.
(** A decimal digit, and a string of decimal digits. *)
Definition digit (c : ascii) : bool :=
  (48 <=? nat_of_ascii c)%nat && (nat_of_ascii c <=? 57)%nat.

Fixpoint digits (s : string) : bool :=
  match s with
  | EmptyString => true
  | String c t => digit c && digits t
  end.
End Chars.

(** ** What the scripts print, and when they save *)

Module Report.
Import Np Pv Shared.
Local Open Scope string_scope.

(** Whether [if args.input:] and [if args.output:] hold. *)
Definition wants_input (args : Args) : bool :=
  match input args with
  | Some (String _ _) => true
  | _ => false
  end.

Definition wants_output (args : Args) : bool :=
  match output args with
  | Some (String _ _) => true
  | _ => false
  end.

(** The lines the scripts print. *)
Definition loading_line (path : string) : string :=
  "Loading multi-page TIFF from " ++ path ++ "...".

Definition no_input_line : string :=
  "No input file provided. Generating a sphere volume.".

Definition detected_line (num_labels : Z) : string :=
  "Detected " ++ Py.str_Z num_labels ++ " connected components.".

Definition saving_line (out : string) (idx : nat) : string :=
  "Saving component " ++ Py.str_nat idx ++ " to "
  ++ Meshpyvista7.obj_path out idx ++ " ...".

(** The lines printed for the regions [k], ..., [k + n - 1]. *)
Definition saving_lines (args : Args) (k n : nat) : list string :=
  match output args with
  | Some (String _ _ as out) => map (saving_line out) (seq k n)
  | _ => []
  end.

(** The window is shown when the run ends normally, and only then. *)
Definition window_follows_outcome `{Kernel} (w : World)
    (out : World * result unit) : Prop :=
  match out.2 with
  | inr _ => shown out.1 = true
  | inl _ => shown out.1 = shown w
  end.

End Report.

(** ** A labelling that ignores connectivity

    It gives label 1 to every nonzero pixel; it keeps OpenCV's contract as
    far as the scripts rely on it. *)

Module Blob.
Import Np Pv.

Definition one_label (image : Slice) : Z * Slice :=
  if existsb (fun v => negb (v =? 0)) (ravel2 image)
  then (2, map (map (fun v => if v =? 0 then 0 else 1)) image)
  else (1, map (map (fun _ => 0)) image).

#[export] Instance blob_host : Host := {|
  connectedComponents := one_label;
  rand3 := fun i => (0.25, 0.5, 0.75)%float
|}.

End Blob.

(** * Properties *)

(** ** [np.unique] *)

Module NpFacts.
Import Np.

Lemma elem_of_insert_sorted x y l : y ∈ insert_sorted x l ↔ y = x ∨ y ∈ l.
Proof.
  induction l as [|z l IH]; simpl.
  - set_solver.
  - destruct (x <=? z); set_solver.
Qed.

Lemma insert_sorted_sorted x l :
  StronglySorted Z.le l → StronglySorted Z.le (insert_sorted x l).
Proof.
  induction 1 as [|z l Hl IH Hz]; simpl.
  - repeat constructor.
  - destruct (Z.leb_spec x z).
    + constructor; [by constructor|].
      constructor; [done|]. eapply Forall_impl; [exact Hz|]. simpl. lia.
    + constructor; [done|].
      apply Forall_forall. intros y Hy.
      apply elem_of_insert_sorted in Hy as [->|Hy]; [lia|].
      by eapply Forall_forall in Hz.
Qed.

Lemma elem_of_sort x l : x ∈ sort l ↔ x ∈ l.
Proof.
  unfold sort. induction l as [|y l IH]; simpl; [done|].
  rewrite elem_of_insert_sorted, IH. set_solver.
Qed.

Lemma sort_sorted l : StronglySorted Z.le (sort l).
Proof.
  unfold sort. induction l; simpl; [constructor|by apply insert_sorted_sorted].
Qed.

Lemma elem_of_drop_repeats x l : x ∈ drop_repeats l ↔ x ∈ l.
Proof.
  induction l as [|y [|z l] IH]; [done..|].
  change (drop_repeats (y :: z :: l))
    with (if y =? z then drop_repeats (z :: l) else y :: drop_repeats (z :: l)).
  destruct (Z.eqb_spec y z) as [->|]; set_solver.
Qed.

Lemma drop_repeats_sorted l :
  StronglySorted Z.le l → StronglySorted Z.lt (drop_repeats l).
Proof.
  induction l as [|y [|z l] IH]; intros Hs.
  - constructor.
  - repeat constructor.
  - change (drop_repeats (y :: z :: l))
      with (if y =? z then drop_repeats (z :: l) else y :: drop_repeats (z :: l)).
    inversion Hs as [|? ? Hs' Hy]; subst.
    destruct (Z.eqb_spec y z) as [->|Hne]; [by apply IH|].
    constructor; [by apply IH|].
    apply Forall_forall. intros w Hw. rewrite elem_of_drop_repeats in Hw.
    inversion Hs' as [|? ? _ Hz]; subst.
    inversion Hy as [|? ? Hyz Hyl]; subst.
    apply elem_of_cons in Hw as [->|Hw]; [lia|].
    eapply Forall_forall in Hz; [|exact Hw]. lia.
Qed.

(** The result of [np.unique] is strictly increasing ... *)
Lemma unique_sorted l : StronglySorted Z.lt (unique l).
Proof. apply drop_repeats_sorted, sort_sorted. Qed.

(** ... and holds exactly the values of its argument. *)
Lemma elem_of_unique x l : x ∈ unique l ↔ x ∈ l.
Proof. unfold unique. by rewrite elem_of_drop_repeats, elem_of_sort. Qed.

Lemma lt_sorted_NoDup l : StronglySorted Z.lt l → NoDup l.
Proof.
  induction 1 as [|x l _ IH Hx]; constructor; [|done].
  intros Hin. eapply Forall_forall in Hx; [|exact Hin]. lia.
Qed.

Lemma unique_NoDup l : NoDup (unique l).
Proof. apply lt_sorted_NoDup, unique_sorted. Qed.

End NpFacts.

(** ** The labelling loop *)

Module LabelFacts.
Import Np Meshpyvista7.

Lemma map_fmap {A B} (f : A → B) (l : list A) : map f l = f <$> l.
Proof. reflexivity. Qed.

Section Loop.
Context (cc : Slice → Z * Slice) (volume : Volume).

Lemma running_total_S i page :
  volume !! i = Some page →
  running_total cc volume (S i) = running_total cc volume i + slice_count cc page.
Proof.
  intros Hi. unfold running_total.
  rewrite (take_S_r _ _ _ Hi), map_app, foldr_app. simpl.
  generalize (map (slice_count cc) (take i volume)) as l.
  induction l as [|a l IH]; simpl; lia.
Qed.

Lemma running_total_ge i :
  (length volume ≤ i)%nat →
  running_total cc volume i = running_total cc volume (length volume).
Proof. intros Hi. unfold running_total. by rewrite !take_ge by lia. Qed.

Local Abbreviation labeled_slice := (labeled_slice cc volume).
Local Abbreviation stored := (stored cc volume).

Lemma label_loop_prefix k :
  (k ≤ length volume)%nat →
  ∃ lv, foldl (label_slice cc volume) (zeros_like volume, 1) (seq 0 k)
        = (lv, 1 + running_total cc volume k)
      ∧ length lv = length volume
      ∧ ∀ i page, volume !! i = Some page →
          lv !! i = Some (if decide (i < k)%nat then labeled_slice i page
                          else map (map (λ _, 0)) page).
Proof.
  induction k as [|k IH]; intros Hk.
  - eexists. split; [reflexivity|]. split.
    + unfold zeros_like. by rewrite length_map.
    + intros i page Hi. unfold zeros_like.
      rewrite map_fmap. rewrite list_lookup_fmap, Hi. simpl. 
      done.
  - destruct IH as (lv & Hfold & Hlen & Hlv); [lia|].
    destruct (lookup_lt_is_Some_2 volume k) as [page Hpage]; [lia|].
    rewrite seq_S, foldl_app, Hfold. simpl.
    rewrite (nth_lookup_Some _ _ _ _ Hpage).
    destruct (cc (astype_uint8 page)) as [num_labels labels] eqn:Hcc.
    eexists. split; [|split].
    + f_equal. rewrite (running_total_S _ _ Hpage). unfold slice_count.
      rewrite Hcc. simpl. lia.
    + by rewrite length_insert.
    + intros i page' Hi. destruct (decide (i = k)) as [->|Hne].
      * rewrite list_lookup_insert_eq by lia.
        rewrite decide_True by lia. unfold Meshpyvista7.labeled_slice.
        assert (page' = page) as -> by congruence. by rewrite Hcc.
      * rewrite list_lookup_insert_ne by done. rewrite (Hlv _ _ Hi).
        repeat case_decide; try lia; done.
Qed.

(** The loop in closed form. *)
Lemma labeled_lookup i page :
  volume !! i = Some page →
  (label_connected_components cc volume).1 !! i = Some (labeled_slice i page).
Proof.
  intros Hi. unfold label_connected_components.
  destruct (label_loop_prefix (length volume)) as (lv & Hfold & _ & Hlv); [lia|].
  rewrite Hfold. simpl. rewrite (Hlv _ _ Hi).
  apply lookup_lt_Some in Hi. by rewrite decide_True by lia.
Qed.

Lemma labeled_length :
  length (label_connected_components cc volume).1 = length volume.
Proof.
  unfold label_connected_components.
  destruct (label_loop_prefix (length volume)) as (lv & Hfold & Hlen & _); [lia|].
  by rewrite Hfold.
Qed.

Lemma component_count :
  (label_connected_components cc volume).2
  = running_total cc volume (length volume).
Proof.
  unfold label_connected_components.
  destruct (label_loop_prefix (length volume)) as (lv & Hfold & _); [lia|].
  rewrite Hfold. simpl. lia.
Qed.

Hypothesis Hcc : cc_ok cc volume.
Hypothesis Hfit : (label_connected_components cc volume).2 + 1 ≤ int32_max.

Lemma contract_at i page :
  volume !! i = Some page →
  Cv2.contract (astype_uint8 page) (cc (astype_uint8 page)).
Proof. intros Hi. eapply Forall_forall in Hcc; [done|]. by eapply list_elem_of_lookup_2. Qed.

Lemma slice_count_nonneg i page :
  volume !! i = Some page → 0 ≤ slice_count cc page.
Proof. intros Hi. destruct (contract_at _ _ Hi). unfold slice_count. lia. Qed.

Lemma running_total_S_le i :
  running_total cc volume i ≤ running_total cc volume (S i).
Proof.
  destruct (volume !! i) as [page|] eqn:Hi.
  - rewrite (running_total_S _ _ Hi). pose proof (slice_count_nonneg _ _ Hi). lia.
  - apply lookup_ge_None in Hi.
    rewrite (running_total_ge i), (running_total_ge (S i)) by lia. lia.
Qed.

Lemma running_total_mono i j :
  (i ≤ j)%nat → running_total cc volume i ≤ running_total cc volume j.
Proof.
  induction 1 as [|j _ IH]; [lia|]. pose proof (running_total_S_le j). lia.
Qed.

Lemma running_total_le_count i :
  running_total cc volume i ≤ (label_connected_components cc volume).2.
Proof.
  rewrite component_count. destruct (decide (i ≤ length volume)%nat).
  - by apply running_total_mono.
  - rewrite (running_total_ge i) by lia. lia.
Qed.

Lemma elem_of_concat {A} (x : A) (ls : list (list A)) :
  x ∈ concat ls ↔ ∃ l, l ∈ ls ∧ x ∈ l.
Proof.
  rewrite list_elem_of_In, in_concat. 
  split; intros (l & H1 & H2); exists l; by rewrite ?list_elem_of_In in *.
Qed.

(** A local label of page [i] lies below the page's label count. *)
Lemma local_label_range i page l :
  volume !! i = Some page →
  l ∈ ravel2 (cc (astype_uint8 page)).2 →
  0 ≤ l ≤ slice_count cc page.
Proof.
  intros Hi Hl. destruct (contract_at _ _ Hi) as [_ Hpix _].
  unfold ravel2 in Hl. apply elem_of_concat in Hl as (row & Hrow & Hl).
  apply list_elem_of_lookup in Hrow as [y Hy].
  destruct (Forall2_lookup_r _ _ _ _ _ Hpix Hy) as (vrow & _ & Hrows).
  apply list_elem_of_lookup in Hl as [x Hx].
  destruct (Forall2_lookup_r _ _ _ _ _ Hrows Hx) as (v & _ & [_ ?]).
  unfold slice_count. lia.
Qed.

(** Under the [int32] bound no addition wraps. *)
Lemma labeled_slice_stored i page :
  volume !! i = Some page →
  labeled_slice i page = map (map (stored i)) (cc (astype_uint8 page)).2.
Proof.
  intros Hi. unfold Meshpyvista7.labeled_slice, offset_labels.
  apply map_ext_in. intros row Hrow. apply map_ext_in. intros l Hl.
  unfold Meshpyvista7.stored. destruct (Z.ltb_spec 0 l); [|done].
  assert (l ∈ ravel2 (cc (astype_uint8 page)).2) as Hin.
  { apply elem_of_concat. exists row. by rewrite !list_elem_of_In. }
  pose proof (local_label_range _ _ _ Hi Hin).
  pose proof (running_total_S _ _ Hi).
  pose proof (running_total_le_count (S i)).
  pose proof (running_total_mono 0 i ltac:(lia)) as H0i.
  change (running_total cc volume 0) with 0 in H0i.
  unfold wrap_int32, int32_max in *. rewrite Z.mod_small; lia.
Qed.

Lemma stored_range i page l :
  volume !! i = Some page →
  l ∈ ravel2 (cc (astype_uint8 page)).2 →
  (stored i l = 0 ∧ l = 0)
  ∨ (0 < l ∧ running_total cc volume i + 2 ≤ stored i l
           ≤ running_total cc volume (S i) + 1).
Proof.
  intros Hi Hl. pose proof (local_label_range _ _ _ Hi Hl).
  pose proof (running_total_S _ _ Hi). unfold Meshpyvista7.stored.
  destruct (Z.ltb_spec 0 l); [right|left]; lia.
Qed.
End Loop.

Lemma contractb_sound image out : Cv2.contractb image out = true → Cv2.contract image out.
Proof.
  unfold Cv2.contractb. rewrite !andb_true_iff, !bool_decide_eq_true.
  intros [[? ?] ?]. by constructor.
Qed.

Lemma contractb_volume cc (volume : list (list (list Z))) :
  forallb (λ page, Cv2.contractb (astype_uint8 page) (cc (astype_uint8 page))) volume = true →
  cc_ok cc volume.
Proof.
  unfold cc_ok. rewrite forallb_forall, Forall_forall. intros H page Hp.
  apply contractb_sound, H. by apply list_elem_of_In.
Qed.


Lemma elem_of_ravel2_map (f : Z → Z) (page : list (list Z)) v :
  v ∈ ravel2 (map (map f) page) ↔ ∃ l, l ∈ ravel2 page ∧ v = f l.
Proof.
  unfold ravel2. rewrite elem_of_concat. setoid_rewrite elem_of_concat.
  rewrite map_fmap. setoid_rewrite list_elem_of_fmap. split.
  - intros (row' & (row & -> & Hrow) & Hv). rewrite map_fmap in Hv.
    apply list_elem_of_fmap in Hv as (l & -> & Hl). eauto.
  - intros (l & (row & Hrow & Hl) & ->). exists (map f row). split; [eauto|].
    rewrite map_fmap. apply list_elem_of_fmap. eauto.
Qed.

Lemma foldr_max_le (l : list Z) m :
  0 ≤ m → (∀ x, x ∈ l → x ≤ m) → foldr Z.max 0 l ≤ m.
Proof.
  intros Hm. induction l as [|a l IH]; simpl; intros Hl; [done|].
  apply Z.max_lub; [apply Hl; left|apply IH; intros; apply Hl; by right].
Qed.

Lemma foldr_max_ge (l : list Z) x : x ∈ l → x ≤ foldr Z.max 0 l.
Proof.
  induction 1 as [|a b l _ IH]; simpl; lia.
Qed.

Section LabelTheorems.
Context (cc : list (list Z) → Z * list (list Z)) (volume : list (list (list Z))).
Hypothesis Hcc : cc_ok cc volume.
Hypothesis Hfit : (label_connected_components cc volume).2 + 1 ≤ int32_max.

Local Abbreviation lv := (label_connected_components cc volume).1.
Local Abbreviation count := (label_connected_components cc volume).2.
Local Abbreviation total := (running_total cc volume).

Lemma elem_of_ravel_labeled v :
  v ∈ ravel lv ↔
  ∃ i page l, volume !! i = Some page
              ∧ l ∈ ravel2 (cc (astype_uint8 page)).2
              ∧ v = stored cc volume i l.
Proof.
  unfold ravel. rewrite elem_of_concat, map_fmap.
  setoid_rewrite list_elem_of_fmap. split.
  - intros (vs & (lpage & -> & Hin) & Hv).
    apply list_elem_of_lookup in Hin as [i Hi].
    destruct (lookup_lt_is_Some_2 volume i) as [page Hpage].
    { rewrite <- (labeled_length cc volume). by eapply lookup_lt_Some. }
    rewrite (labeled_lookup cc _ _ _ Hpage) in Hi. injection Hi as <-.
    rewrite (labeled_slice_stored _ _ Hcc Hfit _ _ Hpage) in Hv.
    apply elem_of_ravel2_map in Hv as (l & Hl & ->). eauto 6.
  - intros (i & page & l & Hpage & Hl & ->).
    exists (ravel2 (labeled_slice cc volume i page)). split.
    + eexists. split; [done|]. eapply list_elem_of_lookup_2.
      by apply labeled_lookup.
    + rewrite (labeled_slice_stored _ _ Hcc Hfit _ _ Hpage).
      apply elem_of_ravel2_map. eauto.
Qed.

(** Every value between 2 and the count plus one falls into the band of one page. *)
Lemma band_of v k :
  (k ≤ length volume)%nat → 2 ≤ v ≤ total k + 1 →
  ∃ i page, volume !! i = Some page ∧ total i + 2 ≤ v ≤ total (S i) + 1.
Proof.
  induction k as [|k IH]; intros Hk Hv.
  - change (total 0%nat) with 0 in Hv. lia.
  - destruct (decide (v ≤ total k + 1)) as [Hle|Hgt]; [apply IH; lia|].
    destruct (lookup_lt_is_Some_2 volume k) as [page Hpage]; [lia|].
    exists k, page. split; [done|]. lia.
Qed.

Lemma positive_labels v :
  v ∈ ravel lv ∧ 0 < v ↔ 2 ≤ v ≤ count + 1.
Proof.
  rewrite elem_of_ravel_labeled. split.
  - intros [(i & page & l & Hpage & Hl & ->) Hpos].
    destruct (stored_range _ _ Hcc _ _ _ Hpage Hl) as [[Hz _]|[_ Hb]]; [lia|].
    pose proof (running_total_mono _ _ Hcc 0 i ltac:(lia)) as Hi0.
    change (total 0%nat) with 0 in Hi0.
    pose proof (running_total_le_count _ _ Hcc (S i)). lia.
  - intros Hv. split; [|lia].
    destruct (band_of v (length volume)) as (i & page & Hpage & Hband);
      [lia|by rewrite <- component_count|].
    pose proof (running_total_S cc _ _ _ Hpage) as HS.
    destruct (contract_at _ _ Hcc _ _ Hpage) as [_ _ Honto].
    set (l := v - 1 - total i).
    assert (l ∈ seqZ 1 ((cc (astype_uint8 page)).1 - 1)) as Hl.
    { apply elem_of_seqZ. unfold slice_count in HS. lia. }
    eapply Forall_forall in Honto; [|exact Hl].
    apply Exists_exists in Honto as (row & Hrow & Hlrow).
    exists i, page, l. split; [done|]. split.
    + apply elem_of_concat. eauto.
    + unfold stored. destruct (Z.ltb_spec 0 l); lia.
Qed.

Lemma labels_nonneg v : v ∈ ravel lv → 0 ≤ v.
Proof.
  rewrite elem_of_ravel_labeled. intros (i & page & l & Hpage & Hl & ->).
  destruct (stored_range _ _ Hcc _ _ _ Hpage Hl) as [[Hz _]|[_ Hb]]; [lia|].
  pose proof (running_total_mono _ _ Hcc 0 i ltac:(lia)) as Hi0.
  change (total 0%nat) with 0 in Hi0. lia.
Qed.

Lemma max_label_count : 0 < count → max_label lv = count + 1.
Proof.
  intros Hpos. unfold max_label. apply Z.le_antisymm.
  - apply foldr_max_le; [lia|]. intros x Hx.
    destruct (decide (0 < x)); [|lia].
    apply (proj1 (positive_labels x)). done.
  - apply foldr_max_ge. apply (proj2 (positive_labels (count + 1))). lia.
Qed.


Lemma voxel_labeled i y x :
  voxel lv i y x
  = volume !! i ≫= λ page,
      stored cc volume i <$> ((cc (astype_uint8 page)).2 !! y ≫= λ row, row !! x).
Proof.
  unfold voxel. destruct (volume !! i) as [page|] eqn:Hpage; simpl.
  - rewrite (labeled_lookup cc _ _ _ Hpage). simpl.
    rewrite (labeled_slice_stored _ _ Hcc Hfit _ _ Hpage).
    rewrite map_fmap, list_lookup_fmap.
    destruct ((cc (astype_uint8 page)).2 !! y) as [row|]; simpl; [|done].
    by rewrite map_fmap, list_lookup_fmap.
  - apply lookup_ge_None in Hpage.
    rewrite (proj2 (lookup_ge_None lv i)); [done|].
    by rewrite labeled_length.
Qed.

Lemma voxel_labeled_inv i y x a :
  voxel lv i y x = Some a →
  ∃ page l, volume !! i = Some page
            ∧ l ∈ ravel2 (cc (astype_uint8 page)).2
            ∧ a = stored cc volume i l.
Proof.
  rewrite voxel_labeled. destruct (volume !! i) as [page|]; simpl; [|done].
  destruct ((cc (astype_uint8 page)).2 !! y) as [row|] eqn:Hy; simpl; [|done].
  destruct (row !! x) as [l|] eqn:Hx; simpl; [|done].
  intros [= <-]. exists page, l. split; [done|]. split; [|done].
  apply elem_of_concat. exists row.
  split; eapply list_elem_of_lookup_2; eauto.
Qed.

Lemma total_nonneg i : 0 ≤ total i.
Proof.
  pose proof (running_total_mono _ _ Hcc 0 i ltac:(lia)) as Hi0.
  by change (total 0%nat) with 0 in Hi0.
Qed.

(** A positive label of page [i] lies in the band of page [i]. *)
Lemma voxel_band i y x a :
  voxel lv i y x = Some a → 0 < a →
  total i + 2 ≤ a ≤ total (S i) + 1.
Proof.
  intros Ha Hpos. apply voxel_labeled_inv in Ha as (page & l & Hpage & Hl & ->).
  destruct (stored_range _ _ Hcc _ _ _ Hpage Hl) as [[Hz _]|[_ Hb]]; lia.
Qed.

(** The pixel OpenCV saw at a voxel, and the label it gave. *)
Lemma voxel_pixel i y x v :
  voxel volume i y x = Some v →
  ∃ page l, volume !! i = Some page
    ∧ (cc (astype_uint8 page)).2 !! y ≫= (λ row, row !! x) = Some l
    ∧ Cv2.pixel_ok (cc (astype_uint8 page)).1 (v mod 256) l.
Proof.
  unfold voxel. destruct (volume !! i) as [page|] eqn:Hpage; simpl; [|done].
  destruct (page !! y) as [row|] eqn:Hy; simpl; [|done]. intros Hx.
  destruct (contract_at _ _ Hcc _ _ Hpage) as [_ Hpix _].
  assert (astype_uint8 page !! y = Some (map (λ v, v mod 256) row)) as Hy'.
  { unfold astype_uint8. by rewrite map_fmap, list_lookup_fmap, Hy. }
  destruct (Forall2_lookup_l _ _ _ _ _ Hpix Hy') as (lrow & Hlrow & Hrows).
  assert (map (λ v, v mod 256) row !! x = Some (v mod 256)) as Hx'.
  { by rewrite map_fmap, list_lookup_fmap, Hx. }
  destruct (Forall2_lookup_l _ _ _ _ _ Hrows Hx') as (l & Hl & Hok).
  exists page, l. split; [done|]. rewrite Hlrow. simpl. by split.
Qed.

(** A positive local label marks a pixel that is nonzero modulo 256. *)
Lemma label_pos_foreground i page l :
  volume !! i = Some page →
  l ∈ ravel2 (cc (astype_uint8 page)).2 → 0 < l →
  ∃ v, v ∈ ravel volume ∧ v mod 256 ≠ 0.
Proof.
  intros Hpage Hl Hpos. destruct (contract_at _ _ Hcc _ _ Hpage) as [_ Hpix _].
  apply elem_of_concat in Hl as (lrow & Hlrow & Hl).
  apply list_elem_of_lookup in Hlrow as [y Hy].
  destruct (Forall2_lookup_r _ _ _ _ _ Hpix Hy) as (vrow & Hvrow & Hrows).
  apply list_elem_of_lookup in Hl as [x Hx].
  destruct (Forall2_lookup_r _ _ _ _ _ Hrows Hx) as (v' & Hv' & [Hiff _]).
  unfold astype_uint8 in Hvrow. rewrite map_fmap, list_lookup_fmap in Hvrow.
  destruct (page !! y) as [row|] eqn:Hrow; [|done]. injection Hvrow as <-.
  rewrite map_fmap, list_lookup_fmap in Hv'.
  destruct (row !! x) as [v|] eqn:Hv; [|done]. injection Hv' as <-.
  exists v. split; [|lia].
  unfold ravel. apply elem_of_concat. exists (ravel2 page). split.
  - rewrite map_fmap. apply list_elem_of_fmap. exists page.
    split; [done|]. by eapply list_elem_of_lookup_2.
  - apply elem_of_concat. exists row. split; eapply list_elem_of_lookup_2; eauto.
Qed.

Lemma count_nonneg : 0 ≤ count.
Proof. rewrite component_count. apply total_nonneg. Qed.

Lemma background_volume :
  (∀ v, v ∈ ravel volume → v mod 256 = 0) →
  count = 0 ∧ ∀ l, l ∈ ravel lv → l = 0.
Proof.
  intros Hbg. pose proof count_nonneg as Hc.
  assert (¬ 0 < count) as Hzero.
  { intros Hpos.
    destruct (proj2 (positive_labels 2) ltac:(lia)) as [Hin _].
    apply elem_of_ravel_labeled in Hin as (i & page & l & Hpage & Hl & Hst).
    destruct (stored_range _ _ Hcc _ _ _ Hpage Hl) as [[Hz _]|[Hlpos _]]; [lia|].
    destruct (label_pos_foreground _ _ _ Hpage Hl Hlpos) as (v & Hv & Hne).
    by apply Hne, Hbg. }
  split; [lia|]. intros l Hl. pose proof (labels_nonneg l Hl).
  destruct (decide (0 < l)) as [Hpos|]; [|lia].
  pose proof (proj1 (positive_labels l) (conj Hl Hpos)). lia.
Qed.

(** On an integer volume a voxel gets a positive label exactly when its
    value is nonzero modulo 256. *)
Lemma foreground_mod_256 i y x v :
  voxel volume i y x = Some v →
  ∃ l, voxel lv i y x = Some l ∧ (0 < l ↔ v mod 256 ≠ 0).
Proof.
  intros Hv.
  destruct (voxel_pixel _ _ _ _ Hv) as (page & l & Hpage & Hl & [Hiff Hr]).
  exists (stored cc volume i l). split.
  - rewrite voxel_labeled, Hpage. simpl. by rewrite Hl.
  - pose proof (total_nonneg i). unfold stored.
    destruct (Z.ltb_spec 0 l); lia.
Qed.

End LabelTheorems.

Section Background.
Context (cc : list (list Z) → Z * list (list Z)) (volume : list (list (list Z))).
Hypothesis Hcc : cc_ok cc volume.
Hypothesis Hbg : ∀ v, v ∈ ravel volume → v mod 256 = 0.

(** OpenCV finds no component in a page of a background volume. *)
Lemma background_slice_count i page :
  volume !! i = Some page → slice_count cc page = 0.
Proof.
  intros Hpage. destruct (contract_at _ _ Hcc _ _ Hpage) as [Hn _ Honto].
  unfold slice_count.
  destruct (decide ((cc (astype_uint8 page)).1 = 1)) as [->|Hne]; [done|].
  assert (1 ∈ seqZ 1 ((cc (astype_uint8 page)).1 - 1)) as H1.
  { apply elem_of_seqZ. lia. }
  eapply Forall_forall in Honto; [|exact H1].
  apply Exists_exists in Honto as (row & Hrow & Hin).
  destruct (label_pos_foreground _ _ Hcc i page 1 Hpage) as (v & Hv & Hnz);
    [apply elem_of_concat; eauto|lia|].
  by apply Hbg in Hv.
Qed.

Lemma background_running_total k : running_total cc volume k = 0.
Proof.
  induction k as [|k IH]; [done|].
  destruct (volume !! k) as [page|] eqn:Hpage.
  - rewrite (running_total_S _ _ _ _ Hpage), IH.
    by rewrite (background_slice_count _ _ Hpage).
  - apply lookup_ge_None in Hpage.
    rewrite (running_total_ge _ _ (S k)) by lia.
    rewrite <- (running_total_ge _ _ k) by lia. done.
Qed.

Lemma background_count : (label_connected_components cc volume).2 = 0.
Proof. rewrite component_count. apply background_running_total. Qed.

End Background.

End LabelFacts.

(** ** Labelling a volume of any element type *)

Module DtypeFacts.
Import Np Meshpyvista7 LabelFacts.

Section Cast.
Context {A : Type} (to_uint8 : A → Z).
Hypothesis Hrange : ∀ v, 0 ≤ to_uint8 v < 256.

Lemma astype_as_uint8 (page : list (list A)) :
  astype_uint8 (Dtype.astype_uint8 to_uint8 page) = Dtype.astype_uint8 to_uint8 page.
Proof.
  unfold astype_uint8, Dtype.astype_uint8. rewrite map_map.
  apply map_ext. intros row. rewrite map_map. apply map_ext. intros v.
  apply Z.mod_small, Hrange.
Qed.

Lemma label_slice_as_uint8 cc (volume : list (list (list A))) st i :
  Dtype.label_slice to_uint8 cc volume st i
  = label_slice cc (Dtype.as_uint8 to_uint8 volume) st i.
Proof.
  unfold Dtype.label_slice, label_slice, Dtype.as_uint8. destruct st as [lv c].
  change (@nil (list Z)) with (Dtype.astype_uint8 to_uint8 []) at 1.
  by rewrite map_nth, astype_as_uint8.
Qed.

(** Labelling a volume is labelling what OpenCV sees of it. *)
Lemma label_as_uint8 cc (volume : list (list (list A))) :
  Dtype.label_connected_components to_uint8 cc volume
  = label_connected_components cc (Dtype.as_uint8 to_uint8 volume).
Proof.
  unfold Dtype.label_connected_components, label_connected_components.
  assert (Dtype.zeros_like volume = zeros_like (Dtype.as_uint8 to_uint8 volume))
    as ->.
  { unfold Dtype.zeros_like, zeros_like, Dtype.as_uint8, Dtype.astype_uint8.
    rewrite map_map. apply map_ext. intros page. rewrite map_map.
    apply map_ext. intros row. by rewrite map_map. }
  assert (length (Dtype.as_uint8 to_uint8 volume) = length volume) as ->
    by apply length_map.
  generalize (zeros_like (Dtype.as_uint8 to_uint8 volume), 1).
  induction (seq 0 (length volume)) as [|i l IH]; intros st; simpl; [done|].
  by rewrite label_slice_as_uint8, IH.
Qed.

Lemma cc_ok_as_uint8 cc (volume : list (list (list A))) :
  Dtype.cc_ok to_uint8 cc volume → cc_ok cc (Dtype.as_uint8 to_uint8 volume).
Proof.
  unfold Dtype.cc_ok, cc_ok, Dtype.as_uint8. rewrite map_fmap, Forall_fmap.
  intros Hcc. eapply Forall_impl; [exact Hcc|].
  intros page Hpage. simpl. by rewrite astype_as_uint8.
Qed.

Lemma voxel_as_uint8 (volume : list (list (list A))) i y x :
  voxel (Dtype.as_uint8 to_uint8 volume) i y x
  = to_uint8 <$> Dtype.voxel volume i y x.
Proof.
  unfold voxel, Dtype.voxel, Dtype.as_uint8, Dtype.astype_uint8.
  rewrite map_fmap, list_lookup_fmap.
  destruct (volume !! i) as [page|]; simpl; [|done].
  rewrite map_fmap, list_lookup_fmap.
  destruct (page !! y) as [row|]; simpl; [|done].
  by rewrite map_fmap, list_lookup_fmap.
Qed.

Lemma ravel_as_uint8 (volume : list (list (list A))) :
  ravel (Dtype.as_uint8 to_uint8 volume) = map to_uint8 (Dtype.ravel volume).
Proof.
  unfold ravel, ravel2, Dtype.ravel, Dtype.as_uint8, Dtype.astype_uint8.
  rewrite map_map. induction volume as [|page volume IH]; simpl; [done|].
  rewrite map_app, IH. f_equal. by rewrite concat_map.
Qed.

End Cast.

(** On an integer volume this is [label_connected_components] as [main]
    calls it. *)
Lemma label_int cc (volume : Volume) :
  Dtype.label_connected_components Dtype.int_to_uint8 cc volume
  = label_connected_components cc volume.
Proof. reflexivity. Qed.

Lemma int_range v : 0 ≤ Dtype.int_to_uint8 v < 256.
Proof. unfold Dtype.int_to_uint8. apply Z.mod_pos_bound. lia. Qed.

(** Both casts give a byte; a float in range gives what is left of it. *)
Lemma float_range undefined f : 0 ≤ Dtype.float_to_uint8 undefined f < 256.
Proof.
  unfold Dtype.float_to_uint8.
  destruct (Dtype.trunc f) as [t|]; [|apply Z.mod_pos_bound; lia].
  destruct (Z.leb_spec 0 t), (Z.ltb_spec t 256); simpl;
    try (apply Z.mod_pos_bound; lia); lia.
Qed.

Lemma float_in_range undefined f t :
  Dtype.trunc f = Some t → 0 ≤ t < 256 → Dtype.float_to_uint8 undefined f = t.
Proof.
  intros Ht Hr. unfold Dtype.float_to_uint8. rewrite Ht.
  destruct (Z.leb_spec 0 t), (Z.ltb_spec t 256); simpl; lia.
Qed.

Lemma contractb_any {A} (to_uint8 : A → Z) cc (volume : list (list (list A))) :
  forallb (λ page, Cv2.contractb (Dtype.astype_uint8 to_uint8 page)
                     (cc (Dtype.astype_uint8 to_uint8 page))) volume = true →
  Dtype.cc_ok to_uint8 cc volume.
Proof.
  unfold Dtype.cc_ok. rewrite forallb_forall, Forall_forall. intros H page Hp.
  apply contractb_sound, H. by apply list_elem_of_In.
Qed.

End DtypeFacts.

(** ** The monad and the region loop *)

Module PipelineFacts.
Import Np Pv Shared Report.

Section Monad.
Context `{Kernel}.

Lemma bind_ok {A B} (m : M A) (k : A → M B) w w' a :
  m w = (w', inr a) → (m ≫= k) w = k a w'.
Proof. intros Hm. unfold mbind, M_bind. by rewrite Hm. Qed.

Lemma bind_err {A B} (m : M A) (k : A → M B) w w' e :
  m w = (w', inl e) → (m ≫= k) w = (w', inl e).
Proof. intros Hm. unfold mbind, M_bind. by rewrite Hm. Qed.

Lemma bind_inv {A B} (m : M A) (k : A → M B) w w' b :
  (m ≫= k) w = (w', inr b) →
  ∃ w1 a, m w = (w1, inr a) ∧ k a w1 = (w', inr b).
Proof.
  unfold mbind, M_bind. destruct (m w) as [w1 [e|a]]; [done|]. eauto.
Qed.

Lemma for_each_cons {A} (x : A) (l : list A) (body : A → M unit) w :
  for_each (x :: l) body w
  = match body x w with
    | (w1, inl e) => (w1, inl e)
    | (w1, inr _) => for_each l body w1
    end.
Proof. simpl. unfold mbind, M_bind. by destruct (body x w) as [w1 [e|[]]]. Qed.

Lemma for_each_ext {A} (l : list A) (body body' : A → M unit) w :
  (∀ x w, body x w = body' x w) → for_each l body w = for_each l body' w.
Proof.
  intros Hext. revert w. induction l as [|x l IH]; intros w; [done|].
  rewrite !for_each_cons, Hext. destruct (body' x w) as [w1 [e|[]]]; [done|].
  apply IH.
Qed.

Lemma call_bind {A B} (r : result A) (k : A → M B) w :
  (call r ≫= k) w = match r with inl e => (w, inl e) | inr a => k a w end.
Proof. unfold call, mbind, M_bind. by destruct r. Qed.

Lemma for_each_app {A} (l1 l2 : list A) (body : A → M unit) w :
  for_each (l1 ++ l2) body w
  = match for_each l1 body w with
    | (w1, inl e) => (w1, inl e)
    | (w1, inr _) => for_each l2 body w1
    end.
Proof.
  revert w. induction l1 as [|x l1 IH]; intros w; simpl; [done|].
  unfold mbind, M_bind. destruct (body x w) as [w1 [e|[]]]; [done|]. apply IH.
Qed.

End Monad.

Lemma enumerate_from_app {A} k (l1 l2 : list A) :
  Py.enumerate_from k (l1 ++ l2)
  = Py.enumerate_from k l1 ++ Py.enumerate_from (k + length l1) l2.
Proof.
  revert k. induction l1 as [|x l1 IH]; intros k; simpl.
  - by rewrite Nat.add_0_r.
  - rewrite IH. do 3 f_equal. lia.
Qed.


Section Regions.
Context `{Kernel} `{Host} (open_pages : string → result (list (list (list Z)))).
Import Meshpyvista7.

Ltac run_region :=
  unfold process_region, color_at, plotter_add_mesh, print, mesh_save, call;
  unfold mbind, M_bind, mret, M_ret.

(** A region that is processed without failure adds one mesh to the scene
    and, when an output path was given, one file. *)
Lemma process_region_ok args components colors idx region_id w w' :
  process_region args components colors (idx, region_id) w = (w', inr ()) →
  ∃ patch m c,
    select_region components region_id = inr patch
    ∧ refine (reduction args) patch = inr m
    ∧ colors !! idx = Some c
    ∧ scene w' = scene w ++ [(m, c)]
    ∧ files w' = files w ++ exported args idx m
    ∧ shown w' = shown w.
Proof.
  run_region. unfold exported.
  destruct (select_region components region_id) as [e|patch] eqn:Hs;
    simpl; [intros; simplify_eq|].
  destruct (refine (reduction args) patch) as [e|m] eqn:Hr;
    simpl; [intros; simplify_eq|].
  destruct (colors !! idx) as [c|] eqn:Hc; simpl; [|intros; simplify_eq].
  destruct (add_mesh m c) as [e|[]]; simpl; [intros; simplify_eq|].
  intros Hrun. exists patch, m, c. do 3 (split; [done|]).
  destruct (output args) as [[|a out]|]; simpl in *.
  - injection Hrun as <-. simpl. by rewrite app_nil_r.
  - destruct (save m _) as [e|[]]; [simplify_eq|]. by injection Hrun as <-.
  - injection Hrun as <-. simpl. by rewrite app_nil_r.
Qed.

(** A failure of the selection or of a refinement stage leaves the world as
    it was and is passed on. *)
Lemma process_region_refine_fails args components colors idx region_id w patch e :
  select_region components region_id = inr patch →
  refine (reduction args) patch = inl e →
  process_region args components colors (idx, region_id) w = (w, inl e).
Proof. intros Hs Hr. run_region. by rewrite Hs, Hr. Qed.

Lemma process_region_console args components colors item w :
  console w `prefix_of` console (process_region args components colors item w).1.
Proof.
  destruct item as [idx region_id]. run_region.
  destruct (select_region components region_id) as [e|patch]; simpl; [done|].
  destruct (refine (reduction args) patch) as [e|m]; simpl; [done|].
  destruct (colors !! idx) as [c|]; simpl; [|done].
  destruct (add_mesh m c) as [e|[]]; simpl; [done|].
  destruct (output args) as [[|a out]|]; simpl; [done| |done].
  destruct (save m _) as [e|[]]; simpl; by apply prefix_app_r.
Qed.

Lemma for_each_console {A} (l : list A) (body : A → M unit) w :
  (∀ x w, console w `prefix_of` console (body x w).1) →
  console w `prefix_of` console (for_each l body w).1.
Proof.
  intros Hbody. revert w. induction l as [|x l IH]; intros w; simpl; [done|].
  unfold mbind, M_bind. pose proof (Hbody x w) as Hx.
  destruct (body x w) as [w1 [e|[]]]; simpl in *; [done|].
  etrans; [exact Hx|apply IH].
Qed.

(** *** The loop, whatever its outcome *)

Lemma saving_lines_cons args k n :
  saving_lines args k (S n) = saving_lines args k 1 ++ saving_lines args (S k) n.
Proof. unfold saving_lines. by repeat case_match. Qed.

Lemma saving_lines_0 args k : saving_lines args k 0 = [].
Proof. unfold saving_lines. by repeat case_match. Qed.

(** One pass through the loop body: it fails before anything is rendered
    and leaves the world as it was; or it renders the refined mesh and
    fails to save it; or it renders the mesh, saves it when an output path
    was given, and returns. *)
Lemma process_region_cases args components colors idx region_id w :
  (∃ e, process_region args components colors (idx, region_id) w = (w, inl e))
  ∨ ∃ patch m c w',
      select_region components region_id = inr patch
      ∧ refine (reduction args) patch = inr m
      ∧ colors !! idx = Some c
      ∧ scene w' = scene w ++ [(m, c)]
      ∧ console w' = console w ++ saving_lines args idx 1
      ∧ shown w' = shown w
      ∧ ((∃ e, process_region args components colors (idx, region_id) w
               = (w', inl e)
               ∧ files w' = files w)
         ∨ (process_region args components colors (idx, region_id) w
            = (w', inr ())
            ∧ files w' = files w ++ exported args idx m)).
Proof.
  run_region. unfold exported, saving_lines, saving_line, say.
  destruct (select_region components region_id) as [e|patch] eqn:Hs;
    simpl; [left; by exists e|].
  destruct (refine (reduction args) patch) as [e|m] eqn:Hr;
    simpl; [left; by exists e|].
  destruct (colors !! idx) as [c|] eqn:Hc; simpl; [|left; by eexists].
  destruct (add_mesh m c) as [e|[]]; simpl; [left; by exists e|].
  right. exists patch, m, c.
  destruct (output args) as [[|a out]|]; simpl.
  - exists {| console := console w; scene := scene w ++ [(m, c)];
              files := files w; shown := shown w |}.
    simpl. rewrite !app_nil_r. do 6 (split; [done|]). by right.
  - destruct (save m _) as [e|[]]; simpl.
    + eexists {| console := _; scene := scene w ++ [(m, c)];
                 files := files w; shown := shown w |}.
      simpl. do 6 (split; [done|]). left. by exists e.
    + eexists {| console := _; scene := scene w ++ [(m, c)];
                 files := _; shown := shown w |}.
      simpl. do 6 (split; [done|]). by right.
  - exists {| console := console w; scene := scene w ++ [(m, c)];
              files := files w; shown := shown w |}.
    simpl. rewrite !app_nil_r. do 6 (split; [done|]). by right.
Qed.

(** The loop, stopped wherever it stops.  [meshes] are the meshes it has
    rendered: they come, in order, from the patches of an initial segment
    of the regions and carry the colours of their indices; [saved] counts
    the regions processed to the end: their meshes have been exported, one
    line has been printed per rendered mesh when an output path was given;
    the loop returns exactly when every region was processed to the end. *)
Lemma loop_run args components colors ids k w :
  ∃ (meshes : list (Mesh * Color)) (saved : nat),
    scene (for_each (Py.enumerate_from k ids)
             (process_region args components colors) w).1 = scene w ++ meshes
    ∧ (length meshes ≤ length ids)%nat
    ∧ Forall2 (λ region_id mc, ∃ patch,
                 select_region components region_id = inr patch
                 ∧ refine (reduction args) patch = inr mc.1)
              (take (length meshes) ids) meshes
    ∧ meshes.*2 = take (length meshes) (drop k colors)
    ∧ files (for_each (Py.enumerate_from k ids)
               (process_region args components colors) w).1
      = files w
        ++ mjoin (imap (λ j mc, exported args (k + j) mc.1) (take saved meshes))
    ∧ (saved ≤ length meshes)%nat
    ∧ console (for_each (Py.enumerate_from k ids)
                 (process_region args components colors) w).1
      = console w ++ saving_lines args k (length meshes)
    ∧ shown (for_each (Py.enumerate_from k ids)
               (process_region args components colors) w).1 = shown w
    ∧ ((for_each (Py.enumerate_from k ids)
          (process_region args components colors) w).2 = inr () →
       length meshes = length ids ∧ saved = length ids)
    ∧ (∀ e, (for_each (Py.enumerate_from k ids)
               (process_region args components colors) w).2 = inl e →
         (saved < length ids)%nat).
Proof.
  revert k w. induction ids as [|region_id ids IH]; intros k w.
  { exists [], 0%nat. simpl. rewrite !app_nil_r, saving_lines_0, app_nil_r.
    repeat split; done. }
  change (Py.enumerate_from k (region_id :: ids))
    with ((k, region_id) :: Py.enumerate_from (S k) ids).
  rewrite for_each_cons.
  destruct (process_region_cases args components colors k region_id w)
    as [[e ->]|(patch & m & c & w1 & Hs & Hr & Hc & Hsc & Hcon & Hsh
                & [(e & -> & Hf)| [-> Hf]])].
  - exists [], 0%nat. simpl. rewrite !app_nil_r, saving_lines_0, app_nil_r.
    repeat split; try done; try lia.
  - exists [(m, c)], 0%nat. simpl. rewrite (drop_S _ _ _ Hc), app_nil_r.
    repeat split; try done; try lia.
    constructor; [by exists patch|constructor].
  - destruct (IH (S k) w1)
      as (meshes & saved & Hsc' & Hlen & Hall & Hcol & Hf' & Hsv & Hcon' & Hsh'
          & Hok & Hfail).
    exists ((m, c) :: meshes), (S saved). cbn [length take fmap list_fmap snd].
    rewrite Hsc', Hsc, Hf', Hf, Hcon', Hcon, Hsh', Hsh, <- !app_assoc.
    rewrite (drop_S _ _ _ Hc), Hcol. cbn [take].
    rewrite (saving_lines_cons args k (length meshes)).
    split; [done|]. split; [lia|].
    split; [constructor; [by exists patch|done]|].
    split; [done|].
    split.
    { cbn [imap mjoin list_join]. rewrite Nat.add_0_r. do 2 f_equal.
      f_equal. apply imap_ext. intros j mc _. simpl. do 2 f_equal. lia. }
    split; [lia|]. split; [done|]. split; [done|].
    split.
    + intros Hr'. destruct (Hok Hr') as [-> ->]. done.
    + intros e He. specialize (Hfail e He). simpl. lia.
Qed.

(** The loop, run to its end without failure: one scene entry and one export
    per item, in order. *)
Lemma loop_ok args components colors ids k w w' :
  for_each (Py.enumerate_from k ids) (process_region args components colors) w
    = (w', inr ()) →
  ∃ meshes,
    length meshes = length ids
    ∧ Forall2 (λ region_id mc, ∃ patch,
                 select_region components region_id = inr patch
                 ∧ refine (reduction args) patch = inr mc.1) ids meshes
    ∧ scene w' = scene w ++ meshes
    ∧ files w' = files w ++ mjoin (imap (λ j mc, exported args (k + j) mc.1) meshes)
    ∧ shown w' = shown w.
Proof.
  revert k w. induction ids as [|region_id ids IH]; intros k w; simpl.
  - intros [= <-]. exists []. simpl. by rewrite !app_nil_r.
  - intros Hrun. apply bind_inv in Hrun as (w1 & [] & Hbody & Hrest).
    apply process_region_ok
      in Hbody as (patch & m & c & Hs & Hr & _ & Hsc & Hf & Hsh).
    apply IH in Hrest as (meshes & Hlen & Hall & Hsc' & Hf' & Hsh').
    exists ((m, c) :: meshes). split; [simpl; lia|]. split; [|split; [|split]].
    + constructor; [by exists patch|done].
    + rewrite Hsc', Hsc. by rewrite <- app_assoc.
    + rewrite Hf', Hf, <- app_assoc. simpl. rewrite Nat.add_0_r. do 2 f_equal.
      f_equal. apply imap_ext. intros j mc _. simpl. do 2 f_equal. lia.
    + congruence.
Qed.


(** Loading only writes to the console. *)
Lemma load_volume_frame args w :
  let w' := (Meshpyvista3.load_volume open_pages args w).1 in
  console w `prefix_of` console w' ∧ scene w' = scene w ∧ files w' = files w
  ∧ shown w' = shown w.
Proof.
  unfold Meshpyvista3.load_volume, print, call; unfold mbind, M_bind, mret, M_ret.
  destruct (input args) as [[|a path]|]; simpl.
  - split; [by apply prefix_app_r|done].
  - destruct (read_multi_tiff_pillow open_pages (String a path)); simpl;
      (split; [by apply prefix_app_r|done]).
  - split; [by apply prefix_app_r|done].
Qed.

(** [prepare] in closed form, once the volume is loaded: the count is
    printed, then the four library calls are chained. *)
Lemma prepare_loaded args w wl volume :
  Meshpyvista3.load_volume open_pages args w = (wl, inr volume) →
  prepare open_pages args w
  = (say (detected volume) wl,
     and_then (threshold 0.5
                 (wrap (label_connected_components connectedComponents volume).1))
       (λ thresholded,
          and_then (extract_surface thresholded) (λ mesh,
          and_then (connectivity mesh) (λ components,
          and_then (point_data components "RegionId") (λ region_ids,
          inr (components, region_ids)))))).
Proof.
  intros Hload. unfold prepare. rewrite (bind_ok _ _ _ _ _ Hload).
  unfold detected, say.
  destruct (label_connected_components connectedComponents volume)
    as [labeled_volume num_labels]; simpl.
  unfold print, call; unfold mbind, M_bind, mret, M_ret; simpl.
  destruct (threshold 0.5 (wrap labeled_volume)) as [e|t]; simpl; [done|].
  destruct (extract_surface t) as [e|m]; simpl; [done|].
  destruct (connectivity m) as [e|c]; simpl; [done|].
  by destruct (point_data c "RegionId") as [e|ids].
Qed.

Lemma prepare_failed args w wl e :
  Meshpyvista3.load_volume open_pages args w = (wl, inl e) →
  prepare open_pages args w = (wl, inl e).
Proof. intros Hload. unfold prepare. by rewrite (bind_err _ _ _ _ _ Hload). Qed.

Lemma prepare_frame args w :
  let w' := (prepare open_pages args w).1 in
  console w `prefix_of` console w' ∧ scene w' = scene w ∧ files w' = files w
  ∧ shown w' = shown w.
Proof.
  pose proof (load_volume_frame args w) as Hl.
  destruct (Meshpyvista3.load_volume open_pages args w) as [wl [e|volume]] eqn:Hload.
  - by rewrite (prepare_failed _ _ _ _ Hload).
  - rewrite (prepare_loaded _ _ _ _ Hload). simpl in *.
    destruct Hl as (Hc & ? & ? & ?). split; [|done].
    etrans; [exact Hc|by apply prefix_app_r].
Qed.

Lemma main_prepared args w w0 components region_ids :
  prepare open_pages args w = (w0, inr (components, region_ids)) →
  main open_pages args w
  = (regions_loop args components region_ids ≫= λ _, plotter_show) w0.
Proof. intros Hp. unfold main. by rewrite (bind_ok _ _ _ _ _ Hp). Qed.

Lemma main_not_prepared args w w0 e :
  prepare open_pages args w = (w0, inl e) →
  main open_pages args w = (w0, inl e).
Proof. intros Hp. unfold main. by rewrite (bind_err _ _ _ _ _ Hp). Qed.

Lemma regions_loop_console args components region_ids w :
  console w `prefix_of` console (regions_loop args components region_ids w).1.
Proof. apply for_each_console. intros. apply process_region_console. Qed.

(** Whatever the outcome, [main] keeps what [prepare] printed. *)
Lemma main_console args w :
  console (prepare open_pages args w).1
  `prefix_of` console (main open_pages args w).1.
Proof.
  destruct (prepare open_pages args w) as [w0 [e|[components region_ids]]] eqn:Hp.
  - by rewrite (main_not_prepared _ _ _ _ Hp).
  - rewrite (main_prepared _ _ _ _ _ Hp). simpl.
    pose proof (regions_loop_console args components region_ids w0) as Hl.
    unfold mbind, M_bind.
    destruct (regions_loop args components region_ids w0) as [w1 [e|[]]];
      simpl in *; done.
Qed.

End Regions.

End PipelineFacts.

(** ** Python strings and floats *)

Module PyFacts.
Import Py.

Lemma append_empty_r (s : string) : (s ++ "")%string = s.
Proof. induction s as [|c s IH]; simpl; [done|by rewrite IH]. Qed.

Lemma append_assoc (s1 s2 s3 : string) :
  ((s1 ++ s2) ++ s3 = s1 ++ (s2 ++ s3))%string.
Proof. induction s1 as [|c s1 IH]; simpl; [done|by rewrite IH]. Qed.

Lemma prefix_append (s t : string) : String.prefix s (s ++ t) = true.
Proof.
  induction s as [|c s IH]; simpl; [by destruct t|].
  by destruct (ascii_dec c c).
Qed.

(** Characters still to be skipped are dropped without being looked at. *)
Lemma replace_from_skip (old new s t : string) :
  replace_from (String.length s) old new (s ++ t) = replace_from 0 old new t.
Proof. induction s as [|c s IH]; simpl; [done|exact IH]. Qed.

(** When the first occurrence of a non-empty [old] is the end of the string,
    [replace] swaps that ending for [new]. *)
Lemma replace_suffix (old new stem : string) :
  old ≠ ""%string →
  find old (stem ++ old) = Some (String.length stem) →
  replace old new (stem ++ old) = (stem ++ new)%string.
Proof.
  intros Hold. assert (replace old new = replace_from 0 old new) as ->.
  { by destruct old. }
  induction stem as [|c stem IH].
  - intros _. destruct old as [|c old]; [done|].
    change ("" ++ String c old)%string with (String c old).
    unfold replace_from at 1; fold replace_from.
    pose proof (prefix_append (String c old) "") as Hp.
    rewrite append_empty_r in Hp. rewrite Hp.
    change (String.length (String c old) - 1)%nat with (String.length old - 0)%nat.
    rewrite Nat.sub_0_r.
    pose proof (replace_from_skip (String c old) new old "") as Hs.
    rewrite append_empty_r in Hs. rewrite Hs. simpl. by rewrite append_empty_r.
  - change (String c stem ++ old)%string with (String c (stem ++ old)).
    intros Hfind. unfold find in Hfind; fold find in Hfind.
    unfold replace_from; fold replace_from.
    destruct (String.prefix old (String c (stem ++ old))); [done|].
    simpl. f_equal. apply IH.
    destruct (find old (stem ++ old)) as [n|]; simpl in Hfind; [|done].
    injection Hfind as ->. done.
Qed.
End PyFacts.

Module FloatFacts.

(** [r <= 0] excludes [0 < r]. *)
Lemma leb_zero_not_gt (r : float) :
  PrimFloat.leb r 0 = true → PrimFloat.ltb 0 r = false.
Proof.
  rewrite leb_spec, ltb_spec.
  change (Prim2SF 0) with (S754_zero false).
  destruct (Prim2SF r) as [s|s| |s m e]; simpl; try destruct s; simpl;
    try congruence; auto.
Qed.

End FloatFacts.

(** ** Claims about [label_connected_components] *)

Module Labeling.
Import Np Meshpyvista7 LabelFacts.

(** The fixture's stack: three 2x3 pages, the second one empty, the third
    with a voxel of value 256. *)
Local Abbreviation demo := Fixture.demo.

Lemma demo_labeled :
  label_connected_components Cv2.connectedComponents demo
  = ([[[2; 0; 3]; [0; 0; 0]]; [[0; 0; 0]; [0; 0; 0]]; [[0; 4; 4]; [0; 0; 4]]], 3).
Proof. vm_compute. reflexivity. Qed.

Lemma demo_cc_ok : cc_ok Cv2.connectedComponents demo.
Proof. apply contractb_volume. vm_compute. reflexivity. Qed.

Lemma demo_fit :
  (label_connected_components Cv2.connectedComponents demo).2 + 1 ≤ int32_max.
Proof. rewrite demo_labeled. unfold int32_max. simpl. lia. Qed.

Section Claims.
Context (cc : Slice → Z * Slice) (volume : Volume).
Hypothesis Hcc : cc_ok cc volume.
Hypothesis Hfit : (label_connected_components cc volume).2 + 1 ≤ int32_max.

Local Abbreviation lv := (label_connected_components cc volume).1.
Local Abbreviation count := (label_connected_components cc volume).2.

(** C1, as amended.  Page [i] of the labelled volume holds OpenCV's labels of
    page [i] with every positive label [l] replaced by
    [l + 1 + (number of labels given to pages 0 .. i-1)]; the returned count is
    the number of labels given to all pages; and when there is a component at
    all, the largest label in the volume is the count plus one. *)
Theorem labels_offset_by_one_plus_running_total :
  (∀ i page, volume !! i = Some page →
     lv !! i = Some (map (map (stored cc volume i)) (cc (astype_uint8 page)).2))
  ∧ count = running_total cc volume (length volume)
  ∧ (0 < count → max_label lv = count + 1).
Proof.
  split; [|split].
  - intros i page Hpage. rewrite (labeled_lookup cc _ _ _ Hpage).
    by rewrite (labeled_slice_stored _ _ Hcc Hfit _ _ Hpage).
  - apply component_count.
  - by apply max_label_count.
Qed.

(** C6.  Two voxels with positive labels in two different pages carry
    different labels, wherever they lie in their pages (in particular when
    they touch across the z-axis). *)
Theorem labels_differ_across_slices i j y x y' x' a b :
  i ≠ j →
  voxel lv i y x = Some a → voxel lv j y' x' = Some b →
  0 < a → 0 < b →
  a ≠ b.
Proof.
  intros Hij Ha Hb Hapos Hbpos.
  pose proof (voxel_band _ _ Hcc Hfit _ _ _ _ Ha Hapos) as Hia.
  pose proof (voxel_band _ _ Hcc Hfit _ _ _ _ Hb Hbpos) as Hjb.
  destruct (decide (i < j)%nat).
  - pose proof (running_total_mono _ _ Hcc (S i) j ltac:(lia)). lia.
  - pose proof (running_total_mono _ _ Hcc (S j) i ltac:(lia)). lia.
Qed.

(** C9.  When the count is positive, the positive values of the labelled
    volume are exactly 2, 3, ..., count + 1, and the largest value is
    count + 1. *)
Theorem positive_labels_are_2_to_count_plus_1 :
  0 < count →
  (∀ v, v ∈ ravel lv ∧ 0 < v ↔ 2 ≤ v ≤ count + 1)
  ∧ max_label lv = count + 1.
Proof.
  intros Hpos. split.
  - intros v. by apply positive_labels.
  - by apply max_label_count.
Qed.

End Claims.

Lemma labels_offset_witness :
  (label_connected_components Cv2.connectedComponents demo).1 !! 2%nat
  = Some (map (map (stored Cv2.connectedComponents demo 2))
              (Cv2.connectedComponents (astype_uint8 [[256; 5; 5]; [0; 0; 7]])).2).
Proof.
  exact (proj1 (labels_offset_by_one_plus_running_total
                  Cv2.connectedComponents demo demo_cc_ok demo_fit)
               2%nat _ eq_refl).
Defined.

Lemma labels_differ_witness : 3 ≠ 4.
Proof.
  apply (labels_differ_across_slices Cv2.connectedComponents demo
           demo_cc_ok demo_fit 0 2 0 2 0 2 3 4).
  - lia.
  - vm_compute. reflexivity.
  - vm_compute. reflexivity.
  - lia.
  - lia.
Defined.

Lemma positive_labels_witness :
  (∀ v, v ∈ ravel (label_connected_components Cv2.connectedComponents demo).1
        ∧ 0 < v
        ↔ 2 ≤ v ≤ (label_connected_components Cv2.connectedComponents demo).2 + 1)
  ∧ max_label (label_connected_components Cv2.connectedComponents demo).1
    = (label_connected_components Cv2.connectedComponents demo).2 + 1.
Proof.
  apply (positive_labels_are_2_to_count_plus_1 Cv2.connectedComponents demo
           demo_cc_ok demo_fit).
  rewrite demo_labeled. simpl. lia.
Defined.

(** C10, as amended.  [label_connected_components] decides foreground by
    the voxel value cast to [uint8]: a voxel gets a positive label exactly
    when its value is nonzero after the cast.  On an integer volume the cast
    is reduction modulo 256, so a voxel is foreground exactly when its value
    is nonzero modulo 256, and a volume all of whose values are multiples of
    256 is labelled 0 everywhere and has count 0.  On a [float64] volume
    (colour pages) the cast drops the fractional part first: a voxel whose
    value without its fractional part is [t], with [0 <= t < 256], is
    foreground exactly when [t] is not 0. *)
Theorem foreground_is_nonzero_after_cast (cc : Slice → Z * Slice) :
  (∀ volume : Volume,
     cc_ok cc volume →
     (label_connected_components cc volume).2 + 1 ≤ int32_max →
     (∀ i y x v, voxel volume i y x = Some v →
        ∃ l, voxel (label_connected_components cc volume).1 i y x = Some l
             ∧ (0 < l ↔ v mod 256 ≠ 0))
     ∧ ((∀ v, v ∈ ravel volume → v mod 256 = 0) →
        (label_connected_components cc volume).2 = 0
        ∧ ∀ l, l ∈ ravel (label_connected_components cc volume).1 → l = 0))
  ∧ (∀ (undefined : float → Z) (volume : list (list (list float))),
       Dtype.cc_ok (Dtype.float_to_uint8 undefined) cc volume →
       (Dtype.label_connected_components
          (Dtype.float_to_uint8 undefined) cc volume).2 + 1 ≤ int32_max →
       ∀ i y x f, Dtype.voxel volume i y x = Some f →
         ∃ l, voxel (Dtype.label_connected_components
                       (Dtype.float_to_uint8 undefined) cc volume).1 i y x
              = Some l
              ∧ (0 < l ↔ Dtype.float_to_uint8 undefined f ≠ 0)
              ∧ (∀ t, Dtype.trunc f = Some t → 0 ≤ t < 256 →
                   (0 < l ↔ t ≠ 0))).
Proof.
  split.
  - intros volume Hcc Hfit. split.
    + intros i y x v. by apply foreground_mod_256.
    + by apply background_volume.
  - intros undefined volume Hcc Hfit i y x f Hf.
    pose proof (DtypeFacts.float_range undefined) as Hrange.
    rewrite (DtypeFacts.label_as_uint8 _ Hrange) in *.
    apply (DtypeFacts.cc_ok_as_uint8 _ Hrange) in Hcc.
    destruct (foreground_mod_256 _ _ Hcc Hfit i y x
                (Dtype.float_to_uint8 undefined f)) as (l & Hl & Hiff).
    { by rewrite DtypeFacts.voxel_as_uint8, Hf. }
    rewrite Z.mod_small in Hiff by apply Hrange.
    exists l. split; [done|]. split; [done|].
    intros t Ht Hr. by rewrite <- (DtypeFacts.float_in_range undefined f t).
Qed.

Lemma foreground_witness :
  ∃ l, voxel (Dtype.label_connected_components
                (Dtype.float_to_uint8 (λ _, 0)) Cv2.connectedComponents
                [[[0.299; 1.5]%float]]).1 0 0 1 = Some l
       ∧ (0 < l ↔ 1 ≠ 0).
Proof.
  destruct (proj2 (foreground_is_nonzero_after_cast Cv2.connectedComponents)
              (λ _, 0) [[[0.299; 1.5]%float]]) with (i := 0%nat) (y := 0%nat)
              (x := 1%nat) (f := 1.5%float) as (l & Hl & _ & Ht).
  - apply DtypeFacts.contractb_any. vm_compute. reflexivity.
  - vm_compute. discriminate.
  - reflexivity.
  - exists l. split; [exact Hl|]. apply Ht; [vm_compute; reflexivity|lia].
Defined.

(** C10 as the specification has it fails on a [float64] volume, as the
    reader makes one from a colour page: 0.299 is not 0 modulo 256, yet the
    cast makes it 0 and the voxel is background. *)
Lemma fractional_voxel_is_background :
  PrimFloat.ltb 0 0.299 = true ∧ PrimFloat.ltb 0.299 256 = true
  ∧ Dtype.float_to_uint8 (λ _, 0) 0.299 = 0
  ∧ Dtype.cc_ok (Dtype.float_to_uint8 (λ _, 0)) Cv2.connectedComponents
      [[[0.299; 1.5]%float]]
  ∧ Dtype.label_connected_components
      (Dtype.float_to_uint8 (λ _, 0)) Cv2.connectedComponents
      [[[0.299; 1.5]%float]]
    = ([[[0; 2]]], 1).
Proof.
  split; [vm_compute; reflexivity|]. split; [vm_compute; reflexivity|].
  split; [vm_compute; reflexivity|].
  split; [apply DtypeFacts.contractb_any; vm_compute; reflexivity|].
  vm_compute. reflexivity.
Qed.

(** C1 as the specification has it fails on a single voxel: the one
    component is counted once and labelled 2. *)
Lemma count_is_not_max_label :
  cc_ok Cv2.connectedComponents [[[1]]]
  ∧ label_connected_components Cv2.connectedComponents [[[1]]] = ([[[2]]], 1)
  ∧ (label_connected_components Cv2.connectedComponents [[[1]]]).2
    ≠ max_label (label_connected_components Cv2.connectedComponents [[[1]]]).1.
Proof.
  split; [apply contractb_volume; vm_compute; reflexivity|].
  split; [vm_compute; reflexivity|].
  vm_compute. discriminate.
Qed.

End Labeling.

(** ** Claims about the pipelines *)

Module Pipeline.
Import Np Pv Shared Report Meshpyvista7 PipelineFacts.

Section Refinement.
Context `{Kernel}.

(** The part of the libraries' contract the triangle counts rest on:
    decimation never adds cells and with the factor 0 removes none, normal
    computation keeps them. *)
Hypothesis decimate_le :
  ∀ r m m', decimate r m = inr m' → (n_cells m' ≤ n_cells m)%nat.
Hypothesis decimate_zero :
  ∀ m m', decimate 0 m = inr m' → n_cells m' = n_cells m.
Hypothesis normals_keep :
  ∀ m m', compute_normals m = inr m' → n_cells m' = n_cells m.

(** C3, as amended.  The multi-region script decimates only when the factor
    is greater than 0: otherwise (in particular for a factor [<= 0]) the
    stage is skipped, the refined mesh is the normals of the triangulated
    patch and has exactly its triangle count; for a factor [> 0] it is the
    decimated patch with normals and has at most that count.  The
    single-region script has no such guard: it calls the decimation for
    every factor, so its refined mesh has at most the triangulated count
    for every factor, and exactly that count for every factor with which
    the decimation removes nothing, the factor 0 among them. *)
Theorem decimation_guard r patch surface :
  (PrimFloat.leb r 0 = true → PrimFloat.ltb 0 r = false)
  ∧ (PrimFloat.ltb 0 r = false →
       Meshpyvista7.refine r patch
       = and_then (and_then (smooth 5 patch) triangulate) compute_normals)
  ∧ (PrimFloat.ltb 0 r = true →
       Meshpyvista7.refine r patch
       = and_then (and_then (smooth 5 patch) triangulate)
           (λ tri, and_then (decimate r tri) compute_normals))
  ∧ (∀ tri m, and_then (smooth 5 patch) triangulate = inr tri →
       Meshpyvista7.refine r patch = inr m →
       (n_cells m ≤ n_cells tri)%nat
       ∧ (PrimFloat.ltb 0 r = false → n_cells m = n_cells tri))
  ∧ Meshpyvista5.refine r surface
    = and_then (and_then (smooth 10 surface) triangulate)
        (λ tri, and_then (decimate r tri) compute_normals)
  ∧ (∀ tri m, and_then (smooth 10 surface) triangulate = inr tri →
       Meshpyvista5.refine r surface = inr m →
       (n_cells m ≤ n_cells tri)%nat
       ∧ ((∀ t t', decimate r t = inr t' → n_cells t' = n_cells t) →
          n_cells m = n_cells tri)
       ∧ (r = 0%float → n_cells m = n_cells tri)).
Proof.
  assert (Meshpyvista7.refine r patch
          = and_then (and_then (smooth 5 patch) triangulate)
              (λ tri, and_then (if PrimFloat.ltb 0 r then decimate r tri
                                else inr tri) compute_normals)) as H7.
  { unfold Meshpyvista7.refine, and_then.
    destruct (smooth 5 patch) as [e|sm]; [done|].
    by destruct (triangulate sm) as [e|t]. }
  assert (Meshpyvista5.refine r surface
          = and_then (and_then (smooth 10 surface) triangulate)
              (λ tri, and_then (decimate r tri) compute_normals)) as H5.
  { unfold Meshpyvista5.refine, and_then.
    destruct (smooth 10 surface) as [e|sm]; [done|].
    by destruct (triangulate sm) as [e|t]. }
  split; [apply FloatFacts.leb_zero_not_gt|].
  split; [intros Hgt; by rewrite H7, Hgt|].
  split; [intros Hgt; by rewrite H7, Hgt|].
  split; [|split; [done|]].
  - intros tri m Htri Hm. rewrite H7, Htri in Hm. unfold and_then in Hm.
    destruct (PrimFloat.ltb 0 r) eqn:Hgt.
    + destruct (decimate r tri) as [e|d] eqn:Hd; [done|].
      apply normals_keep in Hm. apply decimate_le in Hd. split; [lia|done].
    + apply normals_keep in Hm. split; [lia|done].
  - intros tri m Htri Hm. rewrite H5, Htri in Hm. unfold and_then in Hm.
    destruct (decimate r tri) as [e|d] eqn:Hd; [done|].
    apply normals_keep in Hm. split; [|split].
    + apply decimate_le in Hd. lia.
    + intros Hkeep. apply Hkeep in Hd. lia.
    + intros ->. apply decimate_zero in Hd. lia.
Qed.

End Refinement.

Section Run.
Context `{Kernel} `{Host} (open_pages : string → result (list (list (list Z)))).

Local Abbreviation prepare := (Meshpyvista7.prepare open_pages).
Local Abbreviation main := (Meshpyvista7.main open_pages).

(** The names of the files a loop has written. *)
Lemma exported_names args out (meshes : list (Mesh * Color)) k :
  output args = Some out → out ≠ ""%string →
  (mjoin (imap (λ j mc, exported args (k + j) mc.1) meshes)).*1
  = map (obj_path out) (seq k (length meshes)).
Proof.
  intros Hout Hne. revert k.
  induction meshes as [|mc meshes IH]; intros k; simpl; [done|].
  rewrite fmap_app. unfold exported at 1. rewrite Hout.
  destruct out as [|a out]; [done|]. simpl. rewrite Nat.add_0_r. f_equal.
  rewrite <- IH. do 2 f_equal. apply imap_ext. intros j mc' _. simpl.
  do 2 f_equal. lia.
Qed.

(** The run after [prepare], whatever its outcome, in the terms of
    [loop_run]. *)
Lemma main_run args w w0 components region_ids :
  prepare args w = (w0, inr (components, region_ids)) →
  ∃ (meshes : list (Mesh * Color)) (saved : nat),
    scene (main args w).1 = scene w ++ meshes
    ∧ (length meshes ≤ length (Np.unique region_ids))%nat
    ∧ Forall2 (λ region_id mc, ∃ patch,
                 select_region components region_id = inr patch
                 ∧ refine (reduction args) patch = inr mc.1)
              (take (length meshes) (Np.unique region_ids)) meshes
    ∧ meshes.*2
      = take (length meshes)
             (random_colors (length (Np.unique region_ids)))
    ∧ files (main args w).1
      = files w
        ++ mjoin (imap (λ j mc, exported args j mc.1) (take saved meshes))
    ∧ (saved ≤ length meshes)%nat
    ∧ console (main args w).1
      = console w0 ++ saving_lines args 0 (length meshes)
    ∧ ((main args w).2 = inr () →
       length meshes = length (Np.unique region_ids)
       ∧ saved = length (Np.unique region_ids))
    ∧ (∀ e, (main args w).2 = inl e →
         (saved < length (Np.unique region_ids))%nat).
Proof.
  intros Hp. rewrite (main_prepared _ _ _ _ _ _ Hp).
  pose proof (prepare_frame open_pages args w) as Hfr. rewrite Hp in Hfr.
  simpl in Hfr. destruct Hfr as (_ & Hsc0 & Hf0 & _).
  unfold regions_loop, Py.enumerate.
  destruct (loop_run args components
              (random_colors (length (Np.unique region_ids)))
              (Np.unique region_ids) 0 w0)
    as (meshes & saved & Hsc & Hlen & Hall & Hcol & Hf & Hsv & Hcon & _
        & Hok & Hfail).
  exists meshes, saved. unfold mbind, M_bind.
  destruct (for_each _ _ w0) as [w1 [e|[]]]; simpl in *;
    rewrite Hsc, Hf, Hcon, Hsc0, Hf0, Hcol, drop_0; repeat split; try done.
  - by apply Hok.
  - by apply Hok.
Qed.

(** C2, as amended.  In the multi-region script a failure raised by
    smoothing, triangulation, decimation or normal computation while a
    region is refined ends the run with that failure: the regions before it
    have been rendered and, when an output path was given, exported, each
    once and in order; that region and all the remaining ones are neither
    rendered nor exported; and the window is not shown. *)
Theorem refine_failure_aborts_run
    args w w0 components region_ids before region_id after w1 patch e :
  prepare args w = (w0, inr (components, region_ids)) →
  Np.unique region_ids = before ++ region_id :: after →
  for_each (Py.enumerate before)
    (process_region args components
       (random_colors (length (Np.unique region_ids)))) w0 = (w1, inr ()) →
  select_region components region_id = inr patch →
  refine (reduction args) patch = inl e →
  main args w = (w1, inl e)
  ∧ ∃ meshes,
      length meshes = length before
      ∧ Forall2 (λ region_id mc, ∃ patch,
                   select_region components region_id = inr patch
                   ∧ refine (reduction args) patch = inr mc.1)
                before meshes
      ∧ scene w1 = scene w ++ meshes
      ∧ files w1
        = files w ++ mjoin (imap (λ j mc, exported args j mc.1) meshes)
      ∧ shown w1 = shown w.
Proof.
  intros Hp Hu Hbefore Hs Hr.
  rewrite (main_prepared _ _ _ _ _ _ Hp).
  pose proof (prepare_frame open_pages args w) as Hfr. rewrite Hp in Hfr.
  simpl in Hfr. destruct Hfr as (_ & Hsc0 & Hf0 & Hsh0).
  split.
  - apply bind_err. unfold regions_loop, Py.enumerate. rewrite Hu at 1.
    rewrite enumerate_from_app, for_each_app.
    fold (Py.enumerate before). rewrite Hbefore. simpl.
    apply bind_err. by apply process_region_refine_fails with patch.
  - apply loop_ok in Hbefore as (meshes & Hlen & Hall & Hsc & Hf & Hsh).
    exists meshes. rewrite Hsc, Hf, Hsh, Hsc0, Hf0, Hsh0. done.
Qed.

Lemma process_region_factor args r r' components colors item w :
  (∀ m, refine r m = refine r' m) →
  process_region (set_reduction r args) components colors item w
  = process_region (set_reduction r' args) components colors item w.
Proof.
  intros Heq. destruct item as [idx region_id].
  unfold process_region. rewrite !call_bind.
  destruct (select_region components region_id) as [e|patch]; [done|].
  rewrite !call_bind. simpl. by rewrite Heq.
Qed.

(** C4, as amended.  No reduction factor is rejected: the scripts do not
    look at the factor before the refinement.  In the multi-region script
    everything up to the loop (loading, labelling, the printed count, the
    surface and its regions) is the same whatever the factor; in the
    single-region script a run with any factor goes through loading,
    thresholding and surface extraction and hands the factor to the
    refinement; and in both scripts two factors with which the refinement
    does the same give the same run. *)
Theorem reduction_is_not_validated args r w :
  prepare (set_reduction r args) w = prepare args w
  ∧ (∀ wl volume,
       Meshpyvista3.load_volume open_pages args w = (wl, inr volume) →
       detected volume ∈ console (main (set_reduction r args) w).1)
  ∧ (∀ w0 components region_ids,
       prepare args w = (w0, inr (components, region_ids)) →
       main (set_reduction r args) w
       = (for_each (Py.enumerate (Np.unique region_ids))
            (process_region (set_reduction r args) components
               (random_colors (length (Np.unique region_ids))));;
          plotter_show) w0)
  ∧ (∀ wl volume thresholded mesh,
       Meshpyvista3.load_volume open_pages args w = (wl, inr volume) →
       threshold 0.5 (wrap volume) = inr thresholded →
       extract_surface thresholded = inr mesh →
       Meshpyvista5.main open_pages (set_reduction r args) w
       = (final_mesh ← call (Meshpyvista5.refine r mesh);
          Meshpyvista3.save_if_requested args final_mesh;;
          plotter_add_mesh final_mesh (Named "white");;
          plotter_show) wl)
  ∧ (∀ r', (∀ m, refine r m = refine r' m) →
       main (set_reduction r args) w = main (set_reduction r' args) w)
  ∧ (∀ r', (∀ m, Meshpyvista5.refine r m = Meshpyvista5.refine r' m) →
       Meshpyvista5.main open_pages (set_reduction r args) w
       = Meshpyvista5.main open_pages (set_reduction r' args) w).
Proof.
  assert (∀ r0, prepare (set_reduction r0 args) w = prepare args w) as Hprep
    by done.
  assert (∀ r0 wl volume,
            Meshpyvista3.load_volume open_pages args w = (wl, inr volume) →
            Meshpyvista3.load_volume open_pages (set_reduction r0 args) w
            = (wl, inr volume)) as Hload by done.
  split; [done|]. split; [|split; [|split; [|split]]].
  - intros wl volume Hl. eapply elem_of_prefix; [|apply main_console].
    rewrite (prepare_loaded _ _ _ _ _ (Hload r _ _ Hl)). simpl.
    apply elem_of_app. right. by apply list_elem_of_singleton.
  - intros w0 components region_ids Hp. rewrite <- (Hprep r) in Hp.
    by rewrite (main_prepared _ _ _ _ _ _ Hp).
  - intros wl volume thresholded mesh Hl Ht Hm.
    unfold Meshpyvista5.main. rewrite (bind_ok _ _ _ _ _ (Hload r _ _ Hl)).
    by rewrite call_bind, Ht, call_bind, Hm.
  - intros r' Heq. unfold Meshpyvista7.main.
    change (Meshpyvista7.prepare open_pages (set_reduction r args) w)
      with (prepare args w).
    unfold mbind at 1 3, M_bind at 1 3.
    change (Meshpyvista7.prepare open_pages (set_reduction r args) w)
      with (Meshpyvista7.prepare open_pages (set_reduction r' args) w).
    destruct (Meshpyvista7.prepare open_pages (set_reduction r' args) w)
      as [w0 [e|[components region_ids]]]; [done|].
    unfold mbind, M_bind.
    rewrite (for_each_ext _ _
               (process_region (set_reduction r' args) components
                  (random_colors (length (Np.unique region_ids)))));
      [done|].
    intros item w'. by apply process_region_factor.
  - intros r' Heq. unfold Meshpyvista5.main, call; unfold mbind, M_bind.
    change (Meshpyvista3.load_volume open_pages (set_reduction r args) w)
      with (Meshpyvista3.load_volume open_pages args w).
    change (Meshpyvista3.load_volume open_pages (set_reduction r' args) w)
      with (Meshpyvista3.load_volume open_pages args w).
    destruct (Meshpyvista3.load_volume open_pages args w)
      as [wl [e|volume]]; [done|].
    destruct (threshold 0.5 (wrap volume)) as [e|t]; [done|].
    destruct (extract_surface t) as [e|m]; [done|].
    simpl. by rewrite Heq.
Qed.

(** C5, as amended.  Every file a multi-region run writes, whatever the
    outcome of the run, is written for a region, in partition order, under
    the name [obj_path base i], [i] the zero-based index of the region: the
    files written are those of the regions 0, ..., n-1, the regions
    processed to the end, which are all the regions when the run ends
    normally.  When the base path ends in [.obj] and holds [.obj] nowhere
    else, that name is the base path with [_i] put right before the
    extension; for the base [shape.obj] the names for the indices 0, 1, 2
    are [shape_0.obj], [shape_1.obj], [shape_2.obj]. *)
Theorem export_file_names args w out :
  output args = Some out → out ≠ ""%string →
  (∃ n, (files (main args w).1).*1
        = (files w).*1 ++ map (obj_path out) (seq 0 n)
        ∧ ∀ w0 components region_ids,
            prepare args w = (w0, inr (components, region_ids)) →
            (n ≤ length (Np.unique region_ids))%nat
            ∧ ((main args w).2 = inr () →
               n = length (Np.unique region_ids)))
  ∧ (∀ stem i,
       out = (stem ++ ".obj")%string →
       Py.find ".obj" out = Some (String.length stem) →
       obj_path out i = (stem ++ "_" ++ Py.str_nat i ++ ".obj")%string)
  ∧ map (obj_path "shape.obj") (seq 0 3)
    = ["shape_0.obj"; "shape_1.obj"; "shape_2.obj"]%string.
Proof.
  intros Hout Hne. split; [|split; [|reflexivity]].
  - destruct (prepare args w) as [w0 [e|[components region_ids]]] eqn:Hp.
    + exists 0%nat. rewrite (main_not_prepared _ _ _ _ _ Hp).
      pose proof (prepare_frame open_pages args w) as Hfr. rewrite Hp in Hfr.
      simpl in *. destruct Hfr as (_ & _ & -> & _).
      split; [by rewrite app_nil_r|]. intros; discriminate.
    + destruct (main_run _ _ _ _ _ Hp)
        as (meshes & saved & _ & Hlen & _ & _ & Hf & Hsv & _ & Hok & _).
      exists saved. split.
      * rewrite Hf, fmap_app. f_equal.
        pose proof (exported_names args out (take saved meshes) 0 Hout Hne)
          as Hn.
        change (λ j mc, exported args (0 + j) mc.1)
          with (λ (j : nat) (mc : Mesh * Color), exported args j mc.1) in Hn.
        rewrite Hn, length_take. f_equal. f_equal. lia.
      * intros w0' components' region_ids' [= _ _ <-]. split; [lia|].
        intros Hr. by apply Hok.
  - intros stem i -> Hfind. by apply PyFacts.replace_suffix.
Qed.


(** C8.  For a loaded volume without foreground voxel the component count
    is 0 and, the libraries giving an empty surface for it, the run ends
    normally with nothing rendered and nothing exported. *)
Theorem background_volume_yields_nothing args w wl volume :
  Meshpyvista3.load_volume open_pages args w = (wl, inr volume) →
  (∀ v, v ∈ ravel volume → v = 0) →
  cc_ok connectedComponents volume →
  (∀ labeled : list (list (list Z)),
     (∀ l, l ∈ ravel labeled → l = 0) →
     ∃ thresholded mesh components,
       threshold 0.5 (wrap labeled) = inr thresholded
       ∧ extract_surface thresholded = inr mesh
       ∧ connectivity mesh = inr components
       ∧ point_data components "RegionId" = inr []) →
  (label_connected_components connectedComponents volume).2 = 0
  ∧ ∃ w', main args w = (w', inr ())
          ∧ scene w' = scene w ∧ files w' = files w ∧ shown w' = true.
Proof.
  intros Hload Hbg Hcc Hempty.
  assert (∀ v, v ∈ ravel volume → v mod 256 = 0) as Hbg'.
  { intros v Hv. by rewrite (Hbg v Hv). }
  pose proof (LabelFacts.background_count _ _ Hcc Hbg') as Hcount.
  split; [done|].
  assert ((label_connected_components connectedComponents volume).2 + 1
          ≤ int32_max) as Hfit.
  { rewrite Hcount. unfold int32_max. lia. }
  destruct (LabelFacts.background_volume _ _ Hcc Hfit Hbg') as [_ Hzero].
  destruct (Hempty _ Hzero) as (t & m & c & Ht & Hm & Hc & Hids).
  pose proof (prepare_loaded _ _ _ _ _ Hload) as Hp.
  rewrite Ht in Hp. simpl in Hp. rewrite Hm in Hp. simpl in Hp.
  rewrite Hc in Hp. simpl in Hp. rewrite Hids in Hp. simpl in Hp.
  rewrite (main_prepared _ _ _ _ _ _ Hp).
  pose proof (load_volume_frame open_pages args w) as Hfr.
  rewrite Hload in Hfr. simpl in Hfr. destruct Hfr as (_ & Hsc & Hf & _).
  eexists. split; [reflexivity|]. simpl. done.
Qed.

End Run.

(** *** The fixture keeps the libraries' contract *)

Lemma fixture_decimate_le fragile r (m m' : Fixture.Data) :
  @decimate (Fixture.kernel fragile) r m = inr m' →
  (length (Fixture.cells m') ≤ length (Fixture.cells m))%nat.
Proof.
  simpl. unfold Fixture.fdecimate. destruct (Fixture.kind m); try done.
  intros [= <-]. simpl. case_match; [rewrite length_take|]; lia.
Qed.

Lemma fixture_decimate_zero fragile (m m' : Fixture.Data) :
  @decimate (Fixture.kernel fragile) 0 m = inr m' →
  length (Fixture.cells m') = length (Fixture.cells m).
Proof.
  simpl. unfold Fixture.fdecimate. destruct (Fixture.kind m); try done.
  by intros [= <-].
Qed.

Lemma fixture_normals_keep fragile (m m' : Fixture.Data) :
  @compute_normals (Fixture.kernel fragile) m = inr m' →
  length (Fixture.cells m') = length (Fixture.cells m).
Proof.
  simpl. unfold Fixture.fcompute_normals. destruct (Fixture.kind m); try done.
  by intros [= <-].
Qed.

Lemma fixture_empty_surface fragile (labeled : list (list (list Z))) :
  (∀ l, l ∈ ravel labeled → l = 0) →
  ∃ thresholded mesh components,
    @threshold (Fixture.kernel fragile) 0.5 (wrap labeled) = inr thresholded
    ∧ extract_surface thresholded = inr mesh
    ∧ connectivity mesh = inr components
    ∧ point_data components "RegionId" = inr [].
Proof.
  intros Hzero.
  exists (Fixture.MkData Fixture.UnstructuredGrid []),
         (Fixture.MkData Fixture.PolyData []),
         (Fixture.MkData Fixture.PolyData []).
  split; [|done].
  simpl. unfold Fixture.fthreshold, Fixture.fwrap. simpl. do 2 f_equal.
  induction (ravel labeled) as [|v vs IH]; [done|].
  simpl. rewrite (Hzero v) by left. simpl.
  apply IH. intros l Hl. apply Hzero. by right.
Qed.

(** *** Runs on the fixture *)

Import Fixture.

Lemma decimation_guard_witness :
  @Meshpyvista7.refine (Fixture.kernel (-1)) 0
     (MkData UnstructuredGrid [quad; quad])
  = inl no_smooth
  ∧ @Meshpyvista5.refine (Fixture.kernel (-1)) 0 (polydata [quad; quad])
    = inr (polydata [tri; tri; tri; tri]).
Proof.
  destruct (decimation_guard (H := Fixture.kernel (-1))
              (fixture_decimate_le (-1)) (fixture_decimate_zero (-1))
              (fixture_normals_keep (-1))
              0 (MkData UnstructuredGrid [quad; quad])
              (polydata [quad; quad]))
    as (_ & Hskip & _ & _ & Hsingle & _).
  rewrite (Hskip eq_refl), Hsingle.
  repeat split; vm_compute; reflexivity.
Defined.

(** As the specification has it, C3 fails for the single-region script: with
    the factor 0 the multi-region script skips the decimation, the
    single-region script calls it. *)
Lemma single_region_decimates_at_zero :
  PrimFloat.leb 0 0 = true
  ∧ @Meshpyvista7.refine Trace.kernel 0 []
    = inr ["smooth"; "triangulate"; "compute_normals"]%string
  ∧ @Meshpyvista5.refine Trace.kernel 0 []
    = inr ["smooth"; "triangulate"; "decimate"; "compute_normals"]%string.
Proof. repeat split. Qed.

Lemma refine_failure_witness :
  ∃ w1, run (-1) shape_args = (w1, inl no_smooth)
        ∧ ∃ meshes,
            length meshes = 0%nat
            ∧ scene w1 = [] ++ meshes
            ∧ files w1
              = [] ++ mjoin (imap (λ j mc, exported shape_args j mc.1) meshes)
            ∧ shown w1 = false.
Proof.
  destruct (refine_failure_aborts_run (H := Fixture.kernel (-1))
              (H0 := Fixture.host) Fixture.open_pages shape_args empty_world
              (prepare (H := Fixture.kernel (-1)) (H0 := Fixture.host)
                 Fixture.open_pages shape_args empty_world).1
              demo_components demo_region_ids [] 0 [1; 2]
              (prepare (H := Fixture.kernel (-1)) (H0 := Fixture.host)
                 Fixture.open_pages shape_args empty_world).1
              (MkData UnstructuredGrid [MkCell 2 0 4]) no_smooth)
    as (Hrun & meshes & Hlen & _ & Hsc & Hf & Hsh).
  - vm_compute. reflexivity.
  - vm_compute. reflexivity.
  - reflexivity.
  - vm_compute. reflexivity.
  - vm_compute. reflexivity.
  - eexists. split; [exact Hrun|]. exists meshes.
    split; [exact Hlen|]. split; [exact Hsc|]. split; [exact Hf|exact Hsh].
Defined.

(** As the specification has it, C2 fails: the first region cannot be
    smoothed and the run ends there, with nothing rendered or exported and
    the window not shown; the two regions behind it are never reached. *)
Lemma failed_region_halts_run :
  run (-1) shape_args
  = ({| console := ["Loading multi-page TIFF from demo.tif...";
                    "Detected 3 connected components."]%string;
        scene := []; files := []; shown := false |},
     inl "AttributeError: 'UnstructuredGrid' object has no attribute 'smooth'"%string)
  ∧ (prepare (H := Fixture.kernel (-1)) (H0 := Fixture.host)
       Fixture.open_pages shape_args empty_world).2
    = inr (demo_components, demo_region_ids)
  ∧ Np.unique demo_region_ids = [0; 1; 2].
Proof. repeat split; vm_compute; reflexivity. Qed.

Lemma reduction_witness :
  detected (H0 := Fixture.host) Fixture.demo
  ∈ console (run (-1) (set_reduction 1.5 shape_args)).1.
Proof.
  destruct (reduction_is_not_validated (H := Fixture.kernel (-1))
              (H0 := Fixture.host) Fixture.open_pages shape_args 1.5
              empty_world) as (_ & Hdetected & _).
  apply (Hdetected (say (H := Fixture.kernel (-1))
                      "Loading multi-page TIFF from demo.tif..." empty_world)
                   Fixture.demo).
  vm_compute. reflexivity.
Defined.

(** As the specification has it, C4 fails: with the factor 1.5 the volume is
    loaded and labelled and the count is printed. *)
Lemma out_of_range_factor_accepted :
  PrimFloat.ltb 1 1.5 = true
  ∧ console (run (-1) (set_reduction 1.5 shape_args)).1
    = ["Loading multi-page TIFF from demo.tif...";
       "Detected 3 connected components."]%string.
Proof. repeat split; vm_compute; reflexivity. Qed.

Lemma export_names_witness :
  (∃ n, (files (run (-1) shape_args).1).*1
        = [] ++ map (obj_path "shape.obj") (seq 0 n))
  ∧ ∀ i, obj_path "shape.obj" i
         = ("shape" ++ "_" ++ Py.str_nat i ++ ".obj")%string.
Proof.
  destruct (export_file_names (H := Fixture.kernel (-1)) (H0 := Fixture.host)
              Fixture.open_pages shape_args empty_world "shape.obj"%string)
    as ((n & Hn & _) & Hstem & _).
  - reflexivity.
  - discriminate.
  - split; [by exists n|]. intros i. by apply (Hstem "shape"%string i).
Defined.

(** As the specification has it, C5 fails for a base path without [.obj]
    (every region gets the same name) and for one with [.obj] twice. *)
Lemma export_names_not_by_extension :
  obj_path "out.stl" 0 = "out.stl"%string
  ∧ obj_path "out.stl" 1 = "out.stl"%string
  ∧ obj_path "a.obj.obj" 1 = "a_1.obj_1.obj"%string.
Proof. repeat split; vm_compute; reflexivity. Qed.



Lemma background_witness :
  (label_connected_components Cv2.connectedComponents Fixture.blank).2 = 0
  ∧ ∃ w', run (-1) (MkArgs (Some "blank.tif"%string) (Some "out.obj"%string)
                      0.9) = (w', inr ())
          ∧ scene w' = [] ∧ files w' = [] ∧ shown w' = true.
Proof.
  apply (background_volume_yields_nothing (H := Fixture.kernel (-1))
           (H0 := Fixture.host) Fixture.open_pages
           (MkArgs (Some "blank.tif"%string) (Some "out.obj"%string) 0.9)
           empty_world
           (say (H := Fixture.kernel (-1))
              "Loading multi-page TIFF from blank.tif..." empty_world)
           Fixture.blank).
  - vm_compute. reflexivity.
  - apply Forall_forall. vm_compute. repeat constructor.
  - apply LabelFacts.contractb_volume. vm_compute. reflexivity.
  - apply fixture_empty_surface.
Defined.

End Pipeline.

(** * Further properties *)

(** ** More about [label_connected_components] *)

Module LabelExtras.
Import Np Meshpyvista7 LabelFacts DtypeFacts Gauge.

Section Shape.
Context (cc : Slice → Z * Slice) (volume : Volume).
Hypothesis Hcc : cc_ok cc volume.

Lemma Forall2_row_lengths {A B} (R : A → B → Prop) (a : list (list A)) (b : list (list B)) :
  Forall2 (Forall2 R) a b → map length a = map length b.
Proof.
  induction 1 as [|r s a b Hrs _ IH]; simpl; [done|].
  by rewrite IH, (Forall2_length _ _ _ Hrs).
Qed.

Lemma labeled_slice_shape i page :
  volume !! i = Some page →
  map length (labeled_slice cc volume i page) = map length page.
Proof.
  intros Hpage. destruct (contract_at _ _ Hcc _ _ Hpage) as [_ Hpix _].
  apply Forall2_row_lengths in Hpix.
  trans (map length (cc (astype_uint8 page)).2).
  - unfold labeled_slice, offset_labels. rewrite map_map.
    apply map_ext. intros. apply length_map.
  - rewrite <- Hpix. unfold astype_uint8. rewrite map_map.
    apply map_ext. intros. apply length_map.
Qed.

Theorem labeled_volume_keeps_shape :
  shape (label_connected_components cc volume).1 = shape volume.
Proof.
  unfold shape. apply list_eq. intros i. rewrite !map_fmap, !list_lookup_fmap.
  destruct (volume !! i) as [page|] eqn:Hpage; simpl.
  - rewrite (labeled_lookup cc _ _ _ Hpage). simpl. f_equal.
    by apply labeled_slice_shape.
  - apply lookup_ge_None in Hpage.
    rewrite (proj2 (lookup_ge_None _ i)); [done|]. by rewrite labeled_length.
Qed.
End Shape.

Section Concat.
Context (cc : Slice → Z * Slice).

Lemma running_total_app_l (v1 v2 : Volume) i :
  (i ≤ length v1)%nat →
  running_total cc (v1 ++ v2) i = running_total cc v1 i.
Proof. intros Hi. unfold running_total. by rewrite take_app_le. Qed.

Lemma sum_app (l1 l2 : list Z) :
  foldr Z.add 0 (l1 ++ l2) = foldr Z.add 0 l1 + foldr Z.add 0 l2.
Proof. induction l1 as [|a l1 IH]; simpl; lia. Qed.

Lemma running_total_app_r (v1 v2 : Volume) j :
  running_total cc (v1 ++ v2) (length v1 + j)
  = running_total cc v1 (length v1) + running_total cc v2 j.
Proof.
  unfold running_total. rewrite take_app_add, firstn_all, map_app. apply sum_app.
Qed.

(** Labelling a stack made of two stacks: the count is the sum of the two
    counts, the pages of the first stack are labelled as if it were alone,
    and the pages of the second are labelled with the offset moved on by the
    first stack's count. *)
Theorem label_concatenation (v1 v2 : Volume) :
  (label_connected_components cc (v1 ++ v2)).2
  = (label_connected_components cc v1).2 + (label_connected_components cc v2).2
  ∧ take (length v1) (label_connected_components cc (v1 ++ v2)).1
    = (label_connected_components cc v1).1
  ∧ ∀ j page, v2 !! j = Some page →
      (label_connected_components cc (v1 ++ v2)).1 !! (length v1 + j)%nat
      = Some (offset_labels
                (1 + (label_connected_components cc v1).2
                 + running_total cc v2 j)
                (cc (astype_uint8 page)).2).
Proof.
  split; [|split].
  - rewrite !component_count, length_app, running_total_app_r. done.
  - apply list_eq. intros i. rewrite lookup_take.
    case_decide as Hi.
    + destruct (lookup_lt_is_Some_2 v1 i Hi) as [page Hpage].
      rewrite (labeled_lookup cc v1 _ _ Hpage).
      rewrite (labeled_lookup cc (v1 ++ v2) i page)
        by (by rewrite lookup_app_l).
      unfold labeled_slice. by rewrite running_total_app_l by lia.
    + symmetry. apply lookup_ge_None. rewrite labeled_length. lia.
  - intros j page Hpage.
    rewrite (labeled_lookup cc (v1 ++ v2) _ page)
      by (by rewrite lookup_app_r, Nat.add_sub' by lia).
    unfold labeled_slice. rewrite running_total_app_r, component_count.
    do 2 f_equal. lia.
Qed.
End Concat.

Section Bounds.
Context (cc : Slice → Z * Slice).

Lemma foreground_spec v : foreground v = true ↔ v mod 256 ≠ 0.
Proof. unfold foreground. rewrite negb_true_iff, Z.eqb_neq. done. Qed.

Lemma filter_none {A} (f : A → bool) (l : list A) :
  (∀ x, x ∈ l → f x = false) → List.filter f l = [].
Proof.
  induction l as [|a l IH]; intros Hl; simpl; [done|].
  rewrite (Hl a) by left. apply IH. intros x Hx. apply Hl. by right.
Qed.

(** Pixel by pixel, the positive labels of a page are its foreground. *)
Lemma positive_labels_length (n : Z) (pixels labels : list Z) :
  Forall2 (λ v l, Cv2.pixel_ok n (v mod 256) l) pixels labels →
  length (List.filter (λ l, 0 <? l) labels)
  = length (List.filter foreground pixels).
Proof.
  induction 1 as [|v l pixels labels [Hiff Hr] _ IH]; simpl; [done|].
  destruct (Z.ltb_spec 0 l), (foreground v) eqn:Hv; simpl; try (by rewrite IH).
  - apply not_true_iff_false in Hv. rewrite foreground_spec in Hv. lia.
  - apply foreground_spec in Hv. lia.
Qed.

Lemma Forall2_concat {A B} (R : A → B → Prop) (a : list (list A)) (b : list (list B)) :
  Forall2 (Forall2 R) a b → Forall2 R (concat a) (concat b).
Proof. induction 1; simpl; [constructor|by apply Forall2_app]. Qed.

Lemma page_pixels page out :
  Cv2.contract (astype_uint8 page) out →
  Forall2 (λ v l, Cv2.pixel_ok out.1 (v mod 256) l) (ravel2 page) (ravel2 out.2).
Proof.
  intros [_ Hpix _]. unfold astype_uint8 in Hpix.
  rewrite map_fmap, Forall2_fmap_l in Hpix.
  apply Forall2_concat. eapply Forall2_impl; [exact Hpix|].
  intros row lrow Hrow. simpl in Hrow. by rewrite map_fmap, Forall2_fmap_l in Hrow.
Qed.

(** One page: a page with a foreground pixel has at least one component, and
    no page has more components than foreground pixels. *)
Lemma slice_count_bounds page :
  Cv2.contract (astype_uint8 page) (cc (astype_uint8 page)) →
  (if existsb foreground (ravel2 page) then 1 else 0) ≤ slice_count cc page
  ∧ slice_count cc page
    ≤ Z.of_nat (length (List.filter foreground (ravel2 page))).
Proof.
  intros Hc. pose proof (page_pixels _ _ Hc) as Hpix.
  destruct Hc as [Hn _ Honto]. unfold slice_count. split.
  - destruct (existsb foreground (ravel2 page)) eqn:Hex; [|lia].
    apply existsb_exists in Hex as (v & Hv & Hfg).
    apply list_elem_of_In, list_elem_of_lookup in Hv as [k Hk].
    destruct (Forall2_lookup_l _ _ _ _ _ Hpix Hk) as (l & _ & [Hiff Hr]).
    apply foreground_spec in Hfg. lia.
  - rewrite <- (positive_labels_length _ _ _ Hpix).
    set (n := (cc (astype_uint8 page)).1) in *.
    assert (seqZ 1 (n - 1) ⊆+ List.filter (λ l, 0 <? l) (ravel2 (cc (astype_uint8 page)).2))
      as Hsub.
    { apply NoDup_submseteq; [apply NoDup_seqZ|].
      intros l Hl. eapply Forall_forall in Honto; [|exact Hl].
      apply Exists_exists in Honto as (row & Hrow & Hin).
      apply elem_of_seqZ in Hl.
      apply list_elem_of_In, filter_In. split.
      - apply list_elem_of_In, elem_of_concat. eauto.
      - apply Z.ltb_lt. lia. }
    apply submseteq_length in Hsub. rewrite length_seqZ in Hsub. lia.
Qed.

Context (volume : Volume).
Hypothesis Hcc : cc_ok cc volume.

Lemma count_is_sum :
  (label_connected_components cc volume).2
  = foldr Z.add 0 (map (slice_count cc) volume).
Proof.
  rewrite component_count. unfold running_total. by rewrite firstn_all.
Qed.

Lemma count_between :
  Z.of_nat (foreground_slices volume) ≤ (label_connected_components cc volume).2
  ∧ (label_connected_components cc volume).2
    ≤ Z.of_nat (foreground_voxels volume).
Proof.
  rewrite count_is_sum. unfold foreground_slices, foreground_voxels, ravel.
  revert Hcc. unfold cc_ok. generalize volume. clear volume.
  induction 1 as [|page vol Hpage _ IH]; simpl; [done|].
  destruct (slice_count_bounds page Hpage) as [Hlo Hhi].
  rewrite List.filter_app, length_app.
  destruct (existsb foreground (ravel2 page)); simpl in *; lia.
Qed.

Lemma count_zero_int :
  (label_connected_components cc volume).2 = 0
  ↔ ∀ v, v ∈ ravel volume → v mod 256 = 0.
Proof.
  destruct count_between as [Hlo Hhi]. split.
  - intros Hz v Hv. rewrite Hz in Hlo.
    destruct (decide (v mod 256 = 0)) as [|Hne]; [done|exfalso].
    unfold ravel in Hv. apply elem_of_concat in Hv as (vs & Hvs & Hv).
    rewrite map_fmap in Hvs. apply list_elem_of_fmap in Hvs as (page & -> & Hpage).
    assert (page ∈ List.filter (λ page, existsb foreground (ravel2 page)) volume)
      as Hin.
    { apply list_elem_of_In, filter_In. split; [by apply list_elem_of_In|].
      apply existsb_exists. exists v. split; [by apply list_elem_of_In|].
      by apply foreground_spec. }
    unfold foreground_slices in Hlo.
    destruct (List.filter _ volume); [by apply elem_of_nil in Hin|simpl in Hlo; lia].
  - intros Hbg. apply Z.le_antisymm; [|rewrite <- Hlo; lia].
    etrans; [exact Hhi|]. unfold foreground_voxels.
    rewrite filter_none; [done|].
    intros v Hv. apply not_true_iff_false. rewrite foreground_spec.
    intros Hne. by apply Hne, Hbg.
Qed.
End Bounds.

Lemma filter_length_map {A B} (f : A → B) (P : B → bool) (l : list A) :
  length (List.filter P (map f l)) = length (List.filter (λ x, P (f x)) l).
Proof.
  induction l as [|a l IH]; simpl; [done|]. destruct (P (f a)); simpl; lia.
Qed.

Lemma existsb_map {A B} (f : A → B) (P : B → bool) (l : list A) :
  existsb P (map f l) = existsb (λ x, P (f x)) l.
Proof. induction l as [|a l IH]; simpl; [done|]. by rewrite IH. Qed.

Section AnyDtype.
Context {A : Type} (to_uint8 : A → Z) (cc : Slice → Z * Slice)
        (volume : list (list (list A))).
Hypothesis Hrange : ∀ v, 0 ≤ to_uint8 v < 256.

Lemma foreground_as_uint8 v :
  foreground (to_uint8 v) = Dtype.foreground to_uint8 v.
Proof.
  unfold foreground, Dtype.foreground. by rewrite Z.mod_small by apply Hrange.
Qed.

Lemma foreground_voxels_as_uint8 :
  foreground_voxels (Dtype.as_uint8 to_uint8 volume)
  = Dtype.foreground_voxels to_uint8 volume.
Proof.
  unfold foreground_voxels, Dtype.foreground_voxels.
  rewrite (ravel_as_uint8 to_uint8), filter_length_map. f_equal.
  apply List.filter_ext. intros v. apply foreground_as_uint8.
Qed.

Lemma foreground_slices_as_uint8 :
  foreground_slices (Dtype.as_uint8 to_uint8 volume)
  = Dtype.foreground_slices to_uint8 volume.
Proof.
  unfold foreground_slices, Dtype.foreground_slices, Dtype.as_uint8.
  rewrite filter_length_map. f_equal. apply List.filter_ext. intros page.
  unfold ravel2, Dtype.astype_uint8. rewrite <- concat_map, existsb_map.
  induction (concat page) as [|v l IH]; simpl; [done|].
  by rewrite IH, foreground_as_uint8.
Qed.

Hypothesis Hcc : Dtype.cc_ok to_uint8 cc volume.

(** The count lies between the number of pages that hold a voxel that is
    nonzero after the cast to [uint8] (for an integer, nonzero modulo 256;
    for a float, nonzero without its fractional part) and the number of
    such voxels. *)
Theorem count_bounds :
  Z.of_nat (Dtype.foreground_slices to_uint8 volume)
  ≤ (Dtype.label_connected_components to_uint8 cc volume).2
  ∧ (Dtype.label_connected_components to_uint8 cc volume).2
    ≤ Z.of_nat (Dtype.foreground_voxels to_uint8 volume).
Proof.
  rewrite (label_as_uint8 to_uint8 Hrange).
  rewrite <- foreground_slices_as_uint8, <- foreground_voxels_as_uint8.
  apply count_between. by apply cc_ok_as_uint8.
Qed.

(** No component is found exactly when every voxel is 0 after the cast to
    [uint8]. *)
Theorem count_zero_iff :
  (Dtype.label_connected_components to_uint8 cc volume).2 = 0
  ↔ ∀ v, v ∈ Dtype.ravel volume → to_uint8 v = 0.
Proof.
  rewrite (label_as_uint8 to_uint8 Hrange).
  rewrite (count_zero_int cc _ (cc_ok_as_uint8 to_uint8 Hrange _ _ Hcc)).
  rewrite (ravel_as_uint8 to_uint8). split.
  - intros Hz v Hv. rewrite <- (Z.mod_small (to_uint8 v) 256) by apply Hrange.
    apply Hz. rewrite map_fmap. apply list_elem_of_fmap. by exists v.
  - intros Hz v Hv. rewrite map_fmap in Hv.
    apply list_elem_of_fmap in Hv as (a & -> & Ha). by rewrite (Hz a Ha).
Qed.

End AnyDtype.

Section Order.
Context (cc : Slice → Z * Slice) (volume : Volume).
Hypothesis Hcc : cc_ok cc volume.
Hypothesis Hfit : (label_connected_components cc volume).2 + 1 ≤ int32_max.

Local Abbreviation lv := (label_connected_components cc volume).1.

(** Labels grow with the page index: every positive label of a page is
    smaller than every positive label of a later page. *)
Theorem labels_increase_with_slice i j y x y' x' a b :
  (i < j)%nat →
  voxel lv i y x = Some a → voxel lv j y' x' = Some b →
  0 < a → 0 < b →
  a < b.
Proof.
  intros Hij Ha Hb Hapos Hbpos.
  pose proof (voxel_band _ _ Hcc Hfit _ _ _ _ Ha Hapos).
  pose proof (voxel_band _ _ Hcc Hfit _ _ _ _ Hb Hbpos).
  pose proof (running_total_mono _ _ Hcc (S i) j ltac:(lia)). lia.
Qed.

(** Inside a page the offset neither merges nor splits components: two
    voxels get the same label exactly when OpenCV gave them the same label,
    and a voxel is labelled 0 exactly when OpenCV labelled it 0. *)
Theorem offset_keeps_partition i y x y' x' l l' :
  local_label cc volume i y x = Some l →
  local_label cc volume i y' x' = Some l' →
  ∃ a b, voxel lv i y x = Some a ∧ voxel lv i y' x' = Some b
         ∧ (a = b ↔ l = l') ∧ (a = 0 ↔ l = 0).
Proof.
  unfold local_label. intros Hl Hl'.
  rewrite !(voxel_labeled _ _ Hcc Hfit).
  destruct (volume !! i) as [page|] eqn:Hpage; simpl in *; [|done].
  rewrite Hl, Hl'. simpl. eexists _, _. split; [done|]. split; [done|].
  pose proof (total_nonneg _ _ Hcc i) as Ht.
  assert (∀ y x l, (cc (astype_uint8 page)).2 !! y ≫= (λ row, row !! x) = Some l
                   → 0 ≤ l) as Hnn.
  { intros y0 x0 l0 H0.
    destruct ((cc (astype_uint8 page)).2 !! y0) as [row|] eqn:Hrow; [|done].
    simpl in H0.
    apply (local_label_range _ _ Hcc i page); [done|].
    apply elem_of_concat. exists row.
    split; eapply list_elem_of_lookup_2; eauto. }
  pose proof (Hnn _ _ _ Hl). pose proof (Hnn _ _ _ Hl').
  unfold stored. destruct (Z.ltb_spec 0 l), (Z.ltb_spec 0 l'); lia.
Qed.
End Order.
(** *** On the fixture's stack *)

Lemma labeled_shape_witness :
  shape (label_connected_components Cv2.connectedComponents Fixture.demo).1
  = shape Fixture.demo.
Proof.
  exact (labeled_volume_keeps_shape Cv2.connectedComponents Fixture.demo
           Labeling.demo_cc_ok).
Defined.

(** A [float64] stack of two pages, as two colour pages give one. *)
Local Abbreviation shades :=
  ([[[0.299; 1.5]; [0; 254.7]]; [[0.587; 0.114]; [0; 0.9]]]%float)
  (only parsing).

Lemma shades_cc_ok :
  Dtype.cc_ok (Dtype.float_to_uint8 (λ _, 0)) Cv2.connectedComponents shades.
Proof. apply contractb_any. vm_compute. reflexivity. Qed.

Lemma count_bounds_witness :
  1 ≤ (Dtype.label_connected_components (Dtype.float_to_uint8 (λ _, 0))
         Cv2.connectedComponents shades).2
  ∧ (Dtype.label_connected_components (Dtype.float_to_uint8 (λ _, 0))
       Cv2.connectedComponents shades).2 ≤ 2.
Proof.
  exact (count_bounds (Dtype.float_to_uint8 (λ _, 0)) Cv2.connectedComponents
           shades (float_range (λ _, 0)) shades_cc_ok).
Defined.

Lemma count_zero_witness :
  (Dtype.label_connected_components (Dtype.float_to_uint8 (λ _, 0))
     Cv2.connectedComponents [[[0.299; 0.587]%float]]).2 = 0
  ↔ ∀ v, v ∈ Dtype.ravel [[[0.299; 0.587]%float]]
         → Dtype.float_to_uint8 (λ _, 0) v = 0.
Proof.
  apply (count_zero_iff (Dtype.float_to_uint8 (λ _, 0))
           Cv2.connectedComponents [[[0.299; 0.587]%float]]
           (float_range (λ _, 0))).
  apply contractb_any. vm_compute. reflexivity.
Defined.

Lemma labels_increase_witness : 3 < 4.
Proof.
  apply (labels_increase_with_slice Cv2.connectedComponents Fixture.demo
           Labeling.demo_cc_ok Labeling.demo_fit 0 2 0 2 0 2 3 4).
  - lia.
  - vm_compute. reflexivity.
  - vm_compute. reflexivity.
  - lia.
  - lia.
Defined.

Lemma offset_partition_witness :
  ∃ a b,
    voxel (label_connected_components Cv2.connectedComponents Fixture.demo).1
          2 0 1 = Some a
    ∧ voxel (label_connected_components Cv2.connectedComponents Fixture.demo).1
            2 1 2 = Some b
    ∧ (a = b ↔ 1 = 1) ∧ (a = 0 ↔ 1 = 0).
Proof.
  apply (offset_keeps_partition Cv2.connectedComponents Fixture.demo
           Labeling.demo_cc_ok Labeling.demo_fit 2 0 1 1 2 1 1).
  - vm_compute. reflexivity.
  - vm_compute. reflexivity.
Defined.

End LabelExtras.

(** ** [create_sphere_array] *)

Module SphereFacts.
Import Np Shared Meshpyvista7 LabelFacts Gauge.

(** The array, read at one index. *)
Lemma sphere_voxel size (x y z : nat) :
  voxel (create_sphere_array size) x y z
  = if decide (Z.of_nat x < size ∧ Z.of_nat y < size ∧ Z.of_nat z < size)
    then Some (if inside size (Z.of_nat x) (Z.of_nat y) (Z.of_nat z)
               then 1 else 0)
    else None.
Proof.
  unfold voxel, create_sphere_array, inside.
  rewrite map_fmap, list_lookup_fmap.
  destruct (decide (Z.of_nat x < size)) as [Hx|Hx].
  - rewrite lookup_seqZ_lt by lia. simpl.
    rewrite map_fmap, list_lookup_fmap.
    destruct (decide (Z.of_nat y < size)) as [Hy|Hy].
    + rewrite lookup_seqZ_lt by lia. simpl.
      rewrite map_fmap, list_lookup_fmap.
      destruct (decide (Z.of_nat z < size)) as [Hz|Hz].
      * rewrite lookup_seqZ_lt by lia. simpl.
        rewrite decide_True by done. by rewrite !Z.add_0_l.
      * rewrite lookup_seqZ_ge by lia. simpl. rewrite decide_False by lia. done.
    + rewrite lookup_seqZ_ge by lia. simpl. rewrite decide_False by lia. done.
  - rewrite lookup_seqZ_ge by lia. simpl. rewrite decide_False by lia. done.
Qed.


Lemma map_const_replicate {A B} (c : B) (l : list A) :
  map (λ _, c) l = replicate (length l) c.
Proof. induction l; simpl; [done|by f_equal]. Qed.

Lemma square_bound a r : 0 ≤ r → a * a ≤ r * r → - r ≤ a ≤ r.
Proof.
  intros Hr Ha. pose proof (Z.square_le_simpl_nonneg a r Hr Ha).
  assert ((- a) * (- a) ≤ r * r) as Ha' by lia.
  pose proof (Z.square_le_simpl_nonneg (- a) r Hr Ha'). lia.
Qed.

Lemma inside_bound size x y z :
  0 ≤ size →
  inside size x y z = true →
  size / 2 - size / 4 ≤ x ≤ size / 2 + size / 4
  ∧ size / 2 - size / 4 ≤ y ≤ size / 2 + size / 4
  ∧ size / 2 - size / 4 ≤ z ≤ size / 2 + size / 4.
Proof.
  unfold inside. rewrite Z.leb_le, !Z.pow_2_r. intros Hsize Hin.
  assert (0 ≤ size / 4) by (apply Z.div_pos; lia).
  generalize dependent (size / 4). generalize (size / 2). intros c r Hin Hr.
  pose proof (Z.square_nonneg (x - c)).
  pose proof (Z.square_nonneg (y - c)). pose proof (Z.square_nonneg (z - c)).
  pose proof (square_bound (x - c) r Hr ltac:(lia)).
  pose proof (square_bound (y - c) r Hr ltac:(lia)).
  pose proof (square_bound (z - c) r Hr ltac:(lia)). lia.
Qed.

Lemma sphere_shape size :
  map (map length) (create_sphere_array size)
  = replicate (Z.to_nat size) (replicate (Z.to_nat size) (Z.to_nat size)).
Proof.
  unfold create_sphere_array. rewrite map_map.
  erewrite map_ext.
  - rewrite map_const_replicate, length_seqZ. reflexivity.
  - intros x. simpl. rewrite map_map. erewrite map_ext.
    + rewrite map_const_replicate, length_seqZ. reflexivity.
    + intros y. simpl. by rewrite length_map, length_seqZ.
Qed.

Lemma sphere_binary size v :
  v ∈ ravel (create_sphere_array size) → v = 0 ∨ v = 1.
Proof.
  intros Hv. unfold ravel in Hv.
  apply elem_of_concat in Hv as (vs & Hvs & Hv).
  rewrite map_fmap in Hvs. apply list_elem_of_fmap in Hvs as (page & -> & Hpage).
  apply elem_of_concat in Hv as (row & Hrow & Hv).
  unfold create_sphere_array in Hpage. rewrite map_fmap in Hpage.
  apply list_elem_of_fmap in Hpage as (x & -> & _).
  rewrite map_fmap in Hrow. apply list_elem_of_fmap in Hrow as (y & -> & _).
  rewrite map_fmap in Hv. apply list_elem_of_fmap in Hv as (z & -> & _).
  case_match; auto.
Qed.

(** For a size that is not negative, [create_sphere_array size] is a cube
    of side [size] holding only the values 0 and 1. *)
Theorem sphere_is_binary_cube size :
  0 ≤ size →
  map (map length) (create_sphere_array size)
  = replicate (Z.to_nat size) (replicate (Z.to_nat size) (Z.to_nat size))
  ∧ ∀ v, v ∈ ravel (create_sphere_array size) → v = 0 ∨ v = 1.
Proof. intros _. split; [apply sphere_shape|apply sphere_binary]. Qed.

Lemma sphere_centre size :
  0 < size →
  voxel (create_sphere_array size) (Z.to_nat (size / 2)) (Z.to_nat (size / 2))
        (Z.to_nat (size / 2)) = Some 1.
Proof.
  intros Hsize.
  assert (0 ≤ size / 2 < size) as Hc by (Z.div_mod_to_equations; lia).
  rewrite sphere_voxel. rewrite Z2Nat.id by lia. rewrite decide_True by lia.
  assert (inside size (size / 2) (size / 2) (size / 2) = true) as ->; [|done].
  unfold inside. apply Z.leb_le. rewrite !Z.sub_diag, !Z.pow_2_r.
  pose proof (Z.square_nonneg (size / 4)). lia.
Qed.

Lemma sphere_page_occupied size (x : nat) page :
  0 < size →
  create_sphere_array size !! x = Some page →
  (∃ v, v ∈ ravel2 page ∧ v ≠ 0)
  ↔ size / 2 - size / 4 ≤ Z.of_nat x ≤ size / 2 + size / 4.
Proof.
  intros Hsize Hpage.
  assert (0 ≤ size / 2 < size) as Hc by (Z.div_mod_to_equations; lia).
  assert (Z.of_nat x < size) as Hx.
  { apply lookup_lt_Some in Hpage. unfold create_sphere_array in Hpage.
    rewrite length_map, length_seqZ in Hpage. lia. }
  split.
  - intros (v & Hv & Hne). apply elem_of_concat in Hv as (row & Hrow & Hv).
    apply list_elem_of_lookup in Hrow as [y Hy].
    apply list_elem_of_lookup in Hv as [z Hz].
    assert (voxel (create_sphere_array size) x y z = Some v) as Hvox.
    { unfold voxel. rewrite Hpage. simpl. rewrite Hy. simpl. done. }
    rewrite sphere_voxel in Hvox. case_decide; [|done].
    injection Hvox as <-.
    destruct (inside size (Z.of_nat x) (Z.of_nat y) (Z.of_nat z)) eqn:Hin;
      [|done].
    apply inside_bound in Hin; [by destruct Hin|lia].
  - intros Hr. exists 1. split; [|done].
    pose proof (sphere_voxel size x (Z.to_nat (size / 2)) (Z.to_nat (size / 2)))
      as Hvox.
    rewrite Z2Nat.id in Hvox by lia. rewrite decide_True in Hvox by lia.
    assert (inside size (Z.of_nat x) (size / 2) (size / 2) = true) as Hin.
    { unfold inside. apply Z.leb_le. rewrite !Z.sub_diag, !Z.pow_2_r.
      assert (0 ≤ size / 4) by (apply Z.div_pos; lia).
      generalize dependent (size / 4). generalize dependent (size / 2).
      intros. nia. }
    rewrite Hin in Hvox. unfold voxel in Hvox. rewrite Hpage in Hvox. simpl in Hvox.
    destruct (page !! Z.to_nat (size / 2)) as [row|] eqn:Hrow; [|done].
    simpl in Hvox. apply elem_of_concat. exists row.
    split; eapply list_elem_of_lookup_2; eauto.
Qed.

(** For a positive size the centre voxel is set, and page [x] holds a set
    voxel exactly when [x] is within the radius of the centre. *)
Theorem sphere_slices size (x : nat) page :
  0 < size →
  create_sphere_array size !! x = Some page →
  voxel (create_sphere_array size) (Z.to_nat (size / 2)) (Z.to_nat (size / 2))
        (Z.to_nat (size / 2)) = Some 1
  ∧ ((∃ v, v ∈ ravel2 page ∧ v ≠ 0)
     ↔ size / 2 - size / 4 ≤ Z.of_nat x ≤ size / 2 + size / 4).
Proof.
  intros Hsize Hpage. split; [by apply sphere_centre|by apply sphere_page_occupied].
Qed.

(** From side 5 on the ball stays clear of the faces of the cube. *)
Theorem sphere_clear_of_faces size (x y z : nat) v :
  5 ≤ size →
  voxel (create_sphere_array size) x y z = Some v →
  Z.of_nat x = 0 ∨ Z.of_nat x = size - 1
  ∨ Z.of_nat y = 0 ∨ Z.of_nat y = size - 1
  ∨ Z.of_nat z = 0 ∨ Z.of_nat z = size - 1 →
  v = 0.
Proof.
  intros Hsize Hv Hface. rewrite sphere_voxel in Hv. case_decide; [|done].
  injection Hv as <-.
  destruct (inside size _ _ _) eqn:Hin; [|done]. exfalso.
  apply inside_bound in Hin; [|lia].
  assert (size / 4 < size / 2 ∧ size / 4 < size - 1 - size / 2) as [H1 H2].
  { Z.div_mod_to_equations. lia. }
  lia.
Qed.

(** The ball looks the same along each axis. *)
Theorem sphere_axes_interchangeable size (x y z : nat) :
  voxel (create_sphere_array size) x y z
  = voxel (create_sphere_array size) y x z
  ∧ voxel (create_sphere_array size) x y z
    = voxel (create_sphere_array size) x z y.
Proof.
  rewrite !sphere_voxel. unfold inside. split.
  - rewrite (Z.add_comm ((Z.of_nat x - _) ^ 2)).
    repeat case_decide; try done; lia.
  - rewrite <- !Z.add_assoc, (Z.add_comm ((Z.of_nat y - _) ^ 2)).
    repeat case_decide; try done; lia.
Qed.


Lemma filter_all {A} (f : A → bool) (l : list A) :
  (∀ x, x ∈ l → f x = true) → List.filter f l = l.
Proof.
  induction l as [|a l IH]; intros Hl; simpl; [done|].
  rewrite (Hl a) by left. f_equal. apply IH. intros x Hx. apply Hl. by right.
Qed.

(** How many of 0, ..., n-1 lie in a range. *)
Lemma count_in_range lo hi n :
  0 ≤ lo → lo ≤ hi + 1 → hi < n →
  length (List.filter (λ x, (lo <=? x) && (x <=? hi)) (seqZ 0 n))
  = Z.to_nat (hi - lo + 1).
Proof.
  intros Hlo Hmid Hhi.
  replace n with (lo + ((hi - lo + 1) + (n - hi - 1))) by lia.
  rewrite seqZ_app by lia. rewrite seqZ_app by lia.
  rewrite !List.filter_app, !length_app.
  rewrite LabelExtras.filter_none, filter_all, LabelExtras.filter_none; simpl.
  - rewrite length_seqZ. lia.
  - intros x Hx. apply elem_of_seqZ in Hx. lia.
  - intros x Hx. apply elem_of_seqZ in Hx. lia.
  - intros x Hx. apply elem_of_seqZ in Hx. lia.
Qed.

Lemma filter_map_length {A B} (f : A → B) (P : B → bool) (l : list A) :
  length (List.filter P (map f l)) = length (List.filter (λ x, P (f x)) l).
Proof.
  induction l as [|a l IH]; simpl; [done|]. destruct (P (f a)); simpl; lia.
Qed.


Lemma sphere_page_foreground size x :
  0 < size → x ∈ seqZ 0 size →
  existsb foreground
    (ravel2 (map (λ y, map (λ z,
       if (x - size / 2) ^ 2 + (y - size / 2) ^ 2 + (z - size / 2) ^ 2
          <=? (size / 4) ^ 2 then 1 else 0) (seqZ 0 size)) (seqZ 0 size)))
  = (size / 2 - size / 4 <=? x) && (x <=? size / 2 + size / 4).
Proof.
  intros Hsize Hx. apply elem_of_seqZ in Hx.
  set (page := map _ _).
  assert (create_sphere_array size !! Z.to_nat x = Some page) as Hpage.
  { unfold create_sphere_array. rewrite map_fmap, list_lookup_fmap.
    rewrite lookup_seqZ_lt by lia. simpl. by rewrite Z2Nat.id by lia. }
  pose proof (sphere_page_occupied size (Z.to_nat x) page Hsize Hpage) as Hiff.
  rewrite Z2Nat.id in Hiff by lia.
  apply eq_true_iff_eq. rewrite existsb_exists, andb_true_iff, !Z.leb_le.
  rewrite <- Hiff. split.
  - intros (v & Hv & Hfg). exists v. split; [by apply list_elem_of_In|].
    intros ->. done.
  - intros (v & Hv & Hne). exists v. split; [by apply list_elem_of_In|].
    destruct (sphere_binary size v) as [->| ->]; [|done|done].
    unfold ravel. apply elem_of_concat. exists (ravel2 page).
    split; [|done]. rewrite map_fmap. apply list_elem_of_fmap.
    exists page. split; [done|]. by eapply list_elem_of_lookup_2.
Qed.

(** The ball meets [2 * (size // 4) + 1] pages. *)
Lemma sphere_foreground_slices size :
  0 < size →
  Z.of_nat (foreground_slices (create_sphere_array size)) = 2 * (size / 4) + 1.
Proof.
  intros Hsize. unfold foreground_slices, create_sphere_array.
  rewrite filter_map_length.
  erewrite List.filter_ext_in.
  - rewrite (count_in_range (size / 2 - size / 4) (size / 2 + size / 4));
      [|Z.div_mod_to_equations; lia..].
    assert (0 ≤ size / 4) by (apply Z.div_pos; lia). lia.
  - intros x Hx. apply sphere_page_foreground; [done|by apply list_elem_of_In].
Qed.

(** Labelling the generated sphere finds at least one component in every
    page the ball meets. *)
Theorem sphere_component_count cc size :
  0 < size →
  cc_ok cc (create_sphere_array size) →
  2 * (size / 4) + 1
  ≤ (label_connected_components cc (create_sphere_array size)).2.
Proof.
  intros Hsize Hcc. rewrite <- sphere_foreground_slices by done.
  by apply LabelExtras.count_between.
Qed.

(** *** On a cube of side 8 *)

Lemma sphere8_cc_ok : cc_ok Cv2.connectedComponents (create_sphere_array 8).
Proof. apply contractb_volume. vm_compute. reflexivity. Qed.

Lemma sphere_cube_witness :
  map (map length) (create_sphere_array 8)
  = replicate 8 (replicate 8 8%nat)
  ∧ ∀ v, v ∈ ravel (create_sphere_array 8) → v = 0 ∨ v = 1.
Proof. apply (sphere_is_binary_cube 8). lia. Defined.

Lemma sphere_slices_witness :
  voxel (create_sphere_array 8) 4 4 4 = Some 1
  ∧ ((∃ v, v ∈ ravel2 (nth 3 (create_sphere_array 8) []) ∧ v ≠ 0)
     ↔ 2 ≤ 3 ≤ 6).
Proof.
  apply (sphere_slices 8 3 (nth 3 (create_sphere_array 8) [])).
  - lia.
  - vm_compute. reflexivity.
Defined.

Lemma sphere_faces_witness : 0 = 0.
Proof.
  apply (sphere_clear_of_faces 8 0 4 4 0).
  - lia.
  - vm_compute. reflexivity.
  - left. reflexivity.
Defined.

Lemma sphere_count_witness :
  5 ≤ (label_connected_components Cv2.connectedComponents
         (create_sphere_array 8)).2.
Proof.
  apply (sphere_component_count Cv2.connectedComponents 8).
  - lia.
  - exact sphere8_cc_ok.
Defined.

End SphereFacts.

(** ** The names of the exported files *)

Module NameFacts.
Import Py PyFacts Chars Meshpyvista7.

Lemma append_inv_head (p s t : string) : (p ++ s = p ++ t)%string → s = t.
Proof. induction p as [|c p IH]; simpl; [done|]. intros [= H]. by apply IH. Qed.

Lemma prefix_split (old s : string) :
  String.prefix old s = true → ∃ rest, s = (old ++ rest)%string.
Proof.
  revert s. induction old as [|c old IH]; intros s; simpl.
  - intros _. by exists s.
  - destruct s as [|c' s]; simpl; [intros; discriminate|].
    destruct (ascii_dec c c') as [->|]; [|intros; discriminate].
    intros Hp. destruct (IH _ Hp) as [rest ->]. by exists rest.
Qed.

(** The first occurrence of [old] splits the string, and [replace] rewrites
    that occurrence and goes on behind it. *)
Lemma replace_first (old s : string) k :
  old ≠ ""%string →
  find old s = Some k →
  ∃ pre rest,
    s = (pre ++ old ++ rest)%string
    ∧ ∀ new, replace_from 0 old new s
             = (pre ++ new ++ replace_from 0 old new rest)%string.
Proof.
  intros Hold. revert k. induction s as [|c s IH]; intros k.
  - destruct old; [done|]. simpl. done.
  - unfold find; fold find.
    destruct (String.prefix old (String c s)) eqn:Hp.
    + intros _. destruct (prefix_split _ _ Hp) as [rest Hrest].
      exists ""%string, rest. split; [done|]. intros new. cbn [append].
      unfold replace_from; fold replace_from. rewrite Hp. f_equal.
      destruct old as [|c' old]; [done|]. simpl in Hrest.
      injection Hrest as -> ->. cbn [String.length].
      rewrite Nat.sub_succ, Nat.sub_0_r. apply replace_from_skip.
    + destruct (find old s) as [k'|] eqn:Hf; [|done]. intros _.
      destruct (IH k' eq_refl) as (pre & rest & -> & Hrep).
      exists (String c pre), rest. split; [done|]. intros new.
      cbn [append]. unfold replace_from; fold replace_from.
      cbn [append] in Hp. rewrite Hp. f_equal. apply Hrep.
Qed.

(** Without an occurrence of [old] nothing is replaced. *)
Lemma replace_absent (old new s : string) :
  old ≠ ""%string → find old s = None → replace old new s = s.
Proof.
  intros Hold. assert (replace old new = replace_from 0 old new) as ->.
  { by destruct old. }
  induction s as [|c s IH]; [done|].
  unfold find; fold find. unfold replace_from; fold replace_from.
  destruct (String.prefix old (String c s)); [done|].
  destruct (find old s); [done|]. intros _. f_equal. by apply IH.
Qed.

Lemma digits_uint d : digits (NilEmpty.string_of_uint d) = true.
Proof. induction d; simpl; done. Qed.

Lemma to_uint_not_nil n : Nat.to_uint n ≠ Decimal.Nil.
Proof.
  intros Hn. pose proof (Unsigned.of_to n) as Hof. rewrite Hn in Hof.
  simpl in Hof. subst n. discriminate.
Qed.

Lemma str_nat_digits n : digits (str_nat n) = true.
Proof.
  unfold str_nat, NilZero.string_of_uint.
  destruct (Nat.to_uint n) eqn:Hn; try apply digits_uint.
  by apply to_uint_not_nil in Hn.
Qed.

Lemma str_nat_inj i j : str_nat i = str_nat j → i = j.
Proof.
  unfold str_nat. intros Heq. apply Unsigned.to_uint_inj.
  apply (f_equal NilZero.uint_of_string) in Heq.
  rewrite !NilZero.usu in Heq by apply to_uint_not_nil. congruence.
Qed.

(** Digit strings followed by a dot are told apart by the digits. *)
Lemma digits_before_dot (s1 s2 t1 t2 : string) :
  digits s1 = true → digits s2 = true →
  (s1 ++ String "." t1 = s2 ++ String "." t2)%string →
  s1 = s2.
Proof.
  revert s2. induction s1 as [|c s1 IH]; intros [|c' s2]; simpl.
  - done.
  - intros _ Hd [= <- _]. done.
  - intros Hd _ [= -> _]. done.
  - intros [_ H1]%andb_true_iff [_ H2]%andb_true_iff [= -> Heq].
    f_equal. by apply IH.
Qed.

(** A base path that does not contain [.obj] is used as it is for every
    region. *)
Theorem names_unchanged_without_obj (out : string) idx :
  find ".obj" out = None → obj_path out idx = out.
Proof. intros Hf. unfold obj_path. by apply replace_absent. Qed.

(** When the base path contains [.obj], different regions get different
    file names. *)
Theorem names_differ_with_obj (out : string) i j :
  find ".obj" out ≠ None → i ≠ j → obj_path out i ≠ obj_path out j.
Proof.
  intros Hf Hij Heq. apply Hij. clear Hij.
  destruct (find ".obj" out) as [k|] eqn:Hk; [|done].
  destruct (replace_first ".obj" out k ltac:(done) Hk) as (pre & rest & -> & Hrep).
  unfold obj_path, replace in Heq. rewrite !Hrep in Heq.
  apply append_inv_head in Heq. simpl in Heq. injection Heq as Heq.
  rewrite !append_assoc in Heq. simpl in Heq.
  apply digits_before_dot in Heq; [|apply str_nat_digits..].
  by apply str_nat_inj.
Qed.

(** *** On two base paths *)

Lemma names_unchanged_witness : obj_path "out.stl" 3 = "out.stl"%string.
Proof. apply names_unchanged_without_obj. vm_compute. reflexivity. Defined.

Lemma names_differ_witness : obj_path "shape.obj" 0 ≠ obj_path "shape.obj" 1.
Proof.
  apply names_differ_with_obj.
  - vm_compute. discriminate.
  - lia.
Defined.

End NameFacts.

(** ** Whole runs *)

Module RunFacts.
Import Np Pv Shared Meshpyvista7 LabelFacts PipelineFacts Report.

Lemma sphere_is_stack size :
  0 < size →
  ∃ page, create_sphere_array size !! 0%nat = Some page
          ∧ Forall (λ q, shape2 q = shape2 page) (create_sphere_array size).
Proof.
  intros Hsize.
  assert (∀ q, q ∈ create_sphere_array size
               → shape2 q = replicate (Z.to_nat size) (Z.to_nat size)) as Hq.
  { intros q Hin. unfold shape2.
    assert (map length q ∈ map (map length) (create_sphere_array size)) as Hm.
    { rewrite map_fmap. apply list_elem_of_fmap. by exists q. }
    rewrite SphereFacts.sphere_shape in Hm.
    by apply elem_of_replicate in Hm as [-> _]. }
  destruct (lookup_lt_is_Some_2 (create_sphere_array size) 0) as [page Hpage].
  { unfold create_sphere_array. rewrite length_map, length_seqZ. lia. }
  exists page. split; [done|]. apply Forall_forall. intros q Hin.
  rewrite (Hq q Hin). symmetry. apply Hq. by eapply list_elem_of_lookup_2.
Qed.

Section Any.
Context `{Kernel} `{Host} (open_pages : string → result (list Slice)).

Ltac settle :=
  simpl; rewrite ?app_nil_r;
  repeat split; try done; try lia; try apply prefix_nil;
  try (intros; discriminate).

(** What one pass through the loop body can do to the world, whatever its
    outcome. *)
Lemma process_region_any args components colors idx region_id w :
  ∃ rendered exported,
    scene (process_region args components colors (idx, region_id) w).1
      = scene w ++ rendered
    ∧ files (process_region args components colors (idx, region_id) w).1
      = files w ++ exported
    ∧ shown (process_region args components colors (idx, region_id) w).1
      = shown w
    ∧ exported.*2 `prefix_of` rendered.*1
    ∧ (length rendered ≤ 1)%nat
    ∧ (wants_output args = false → exported = [])
    ∧ ((process_region args components colors (idx, region_id) w).2 = inr () →
       wants_output args = true → exported.*2 = rendered.*1).
Proof.
  unfold wants_output.
  unfold process_region, color_at, plotter_add_mesh, print, mesh_save, call, say;
    unfold mbind, M_bind, mret, M_ret.
  destruct (select_region components region_id) as [e|patch]; simpl;
    [exists [], []; settle|].
  destruct (refine (reduction args) patch) as [e|m]; simpl;
    [exists [], []; settle|].
  destruct (colors !! idx) as [c|]; simpl; [|exists [], []; settle].
  destruct (add_mesh m c) as [e|[]]; simpl; [exists [], []; settle|].
  destruct (output args) as [[|a out]|]; simpl.
  - exists [(m, c)], []. settle.
  - destruct (save m _) as [e|[]]; simpl.
    + exists [(m, c)], []. settle.
    + exists [(m, c)], [(obj_path (String a out) idx, m)]. settle.
  - exists [(m, c)], []. settle.
Qed.

Lemma loop_any args components colors ids k w :
  ∃ rendered exported,
    scene (for_each (Py.enumerate_from k ids)
             (process_region args components colors) w).1 = scene w ++ rendered
    ∧ files (for_each (Py.enumerate_from k ids)
               (process_region args components colors) w).1 = files w ++ exported
    ∧ shown (for_each (Py.enumerate_from k ids)
               (process_region args components colors) w).1 = shown w
    ∧ exported.*2 `prefix_of` rendered.*1
    ∧ (length rendered ≤ length ids)%nat
    ∧ (wants_output args = false → exported = [])
    ∧ ((for_each (Py.enumerate_from k ids)
          (process_region args components colors) w).2 = inr () →
       wants_output args = true → exported.*2 = rendered.*1).
Proof.
  revert k w. induction ids as [|region_id ids IH]; intros k w.
  - exists [], []. settle.
  - destruct (process_region_any args components colors k region_id w)
      as (r1 & e1 & Hs1 & Hf1 & Hsh1 & Hp1 & Hl1 & Hu1 & Hw1).
    change (Py.enumerate_from k (region_id :: ids))
      with ((k, region_id) :: Py.enumerate_from (S k) ids).
    rewrite for_each_cons.
    destruct (process_region args components colors (k, region_id) w)
      as [w1 [e|[]]]; simpl in *.
    + exists r1, e1. repeat split; try done; try lia.
    + destruct (IH (S k) w1) as (r2 & e2 & Hs2 & Hf2 & Hsh2 & Hp2 & Hl2 & Hu2 & Hw2).
      exists (r1 ++ r2), (e1 ++ e2).
      rewrite Hs2, Hf2, Hsh2, Hs1, Hf1, Hsh1, !app_assoc, !fmap_app, length_app.
      repeat split; try done; try lia.
      * destruct (wants_output args) eqn:Hw.
        -- rewrite (Hw1 eq_refl eq_refl). by apply prefix_app.
        -- rewrite (Hu1 eq_refl), (Hu2 eq_refl). apply prefix_nil.
      * intros Hw. by rewrite (Hu1 Hw), (Hu2 Hw).
      * intros Hr Hw. by rewrite (Hw1 eq_refl Hw), (Hw2 Hr Hw).
Qed.

(** The multi-region run, whatever its outcome: the scene and the files only
    grow; every exported mesh was rendered first, and the exports follow the
    renders in order without a gap; without an output path no file is
    written; and a run that ends normally with an output path has exported
    every mesh it rendered. *)
Theorem exports_follow_renders args w :
  ∃ rendered exported,
    scene (main open_pages args w).1 = scene w ++ rendered
    ∧ files (main open_pages args w).1 = files w ++ exported
    ∧ exported.*2 `prefix_of` rendered.*1
    ∧ (wants_output args = false → exported = [])
    ∧ ((main open_pages args w).2 = inr () →
       wants_output args = true → exported.*2 = rendered.*1).
Proof.
  pose proof (prepare_frame open_pages args w) as Hfr.
  destruct (prepare open_pages args w) as [w0 [e|[components region_ids]]] eqn:Hp;
    simpl in Hfr; destruct Hfr as (_ & Hs0 & Hf0 & _).
  - rewrite (main_not_prepared _ _ _ _ _ Hp). simpl. exists [], []. settle.
  - rewrite (main_prepared _ _ _ _ _ _ Hp). unfold regions_loop, Py.enumerate.
    destruct (loop_any args components
                (random_colors (length (Np.unique region_ids)))
                (Np.unique region_ids) 0 w0)
      as (r & e & Hs & Hf & _ & Hpre & _ & Hu & Hall).
    unfold mbind, M_bind.
    destruct (for_each _ _ w0) as [w1 [err|[]]]; simpl in *;
      exists r, e; rewrite Hs, Hf, Hs0, Hf0; repeat split; done.
Qed.

Lemma main7_shown args w :
  window_follows_outcome w (main open_pages args w).
Proof.
  unfold window_follows_outcome.
  pose proof (prepare_frame open_pages args w) as Hfr.
  destruct (prepare open_pages args w) as [w0 [e|[components region_ids]]] eqn:Hp;
    simpl in Hfr; destruct Hfr as (_ & _ & _ & Hsh0).
  - by rewrite (main_not_prepared _ _ _ _ _ Hp).
  - rewrite (main_prepared _ _ _ _ _ _ Hp). unfold regions_loop, Py.enumerate.
    destruct (loop_any args components
                (random_colors (length (Np.unique region_ids)))
                (Np.unique region_ids) 0 w0)
      as (r & e & _ & _ & Hsh & _).
    unfold mbind, M_bind.
    destruct (for_each _ _ w0) as [w1 [err|[]]]; simpl in *; congruence.
Qed.

(** *** The colours and the printed lines *)

(** The multi-region run once the regions are known, whatever its outcome:
    the meshes it has rendered, as many as [n], carry rows 0, ..., n-1 of
    [random_colors(number of regions)], in order; after the lines printed
    up to the component count it has printed one line per rendered mesh
    when an output path was given and nothing otherwise; and [n] is the
    number of regions when the run ends normally. *)
Theorem run_report args w w0 components region_ids :
  prepare open_pages args w = (w0, inr (components, region_ids)) →
  ∃ n, (n ≤ length (Np.unique region_ids))%nat
       ∧ (scene (main open_pages args w).1).*2
         = (scene w).*2
           ++ take n (random_colors (length (Np.unique region_ids)))
       ∧ console (main open_pages args w).1
         = console w0 ++ saving_lines args 0 n
       ∧ ((main open_pages args w).2 = inr () →
          n = length (Np.unique region_ids)).
Proof.
  intros Hp.
  destruct (Pipeline.main_run open_pages _ _ _ _ _ Hp)
    as (meshes & saved & Hsc & Hlen & _ & Hcol & _ & _ & Hcon & Hok & _).
  exists (length meshes). split; [done|].
  rewrite Hsc, fmap_app, Hcol. do 2 (split; [done|]).
  intros Hr. by apply Hok.
Qed.

(** *** The library's classes *)

(** PyVista's [threshold] returns an [UnstructuredGrid], a class that has
    no [smooth].  With a library in which smoothing fails on whatever
    [threshold] returns, a multi-region run whose surface has a region at
    all ends at the first region: with a failure, and with the world as
    [prepare] left it: nothing rendered, nothing exported, nothing printed
    after the count, the window not shown. *)
Theorem first_region_ends_run args w w0 components region_ids :
  (∀ lo hi scalars d patch n_iter,
     threshold_range lo hi scalars d = inr patch →
     ∃ e, smooth n_iter patch = inl e) →
  prepare open_pages args w = (w0, inr (components, region_ids)) →
  region_ids ≠ [] →
  ∃ e, main open_pages args w = (w0, inl e).
Proof.
  intros Hclass Hp Hne. rewrite (main_prepared _ _ _ _ _ _ Hp).
  unfold regions_loop, Py.enumerate.
  destruct (Np.unique region_ids) as [|region_id rest] eqn:Hu.
  { destruct region_ids as [|x l]; [done|].
    assert (x ∈ Np.unique (x :: l)) as Hx
      by (apply NpFacts.elem_of_unique; left).
    rewrite Hu in Hx. by apply elem_of_nil in Hx. }
  change (Py.enumerate_from 0 (region_id :: rest))
    with ((0%nat, region_id) :: Py.enumerate_from 1 rest).
  destruct (select_region components region_id) as [e|patch] eqn:Hs.
  - exists e. apply bind_err. rewrite for_each_cons.
    unfold process_region. by rewrite call_bind, Hs.
  - destruct (Hclass _ _ _ _ _ 5%nat Hs) as [e He].
    exists e. apply bind_err. rewrite for_each_cons.
    rewrite (process_region_refine_fails _ _ _ _ _ _ patch e Hs); [done|].
    unfold refine. by rewrite He.
Qed.

(** *** Input *)

(** When the input file cannot be read, or its pages cannot be stacked, each
    of the three scripts ends with that failure right after the loading
    line: nothing is labelled, rendered, saved or shown. *)
Theorem unreadable_input_ends_run args path e w :
  input args = Some path → path ≠ ""%string →
  read_multi_tiff_pillow open_pages path = inl e →
  Meshpyvista3.main open_pages args w = (say (loading_line path) w, inl e)
  ∧ Meshpyvista5.main open_pages args w = (say (loading_line path) w, inl e)
  ∧ main open_pages args w = (say (loading_line path) w, inl e).
Proof.
  intros Hin Hne Hread.
  assert (Meshpyvista3.load_volume open_pages args w
          = (say (loading_line path) w, inl e)) as Hload.
  { unfold Meshpyvista3.load_volume. rewrite Hin.
    destruct path as [|a path]; [done|].
    unfold print, call; unfold mbind, M_bind. by rewrite Hread. }
  split; [|split].
  - unfold Meshpyvista3.main. by rewrite (bind_err _ _ _ _ _ Hload).
  - unfold Meshpyvista5.main. by rewrite (bind_err _ _ _ _ _ Hload).
  - apply main_not_prepared. by apply prepare_failed.
Qed.

Lemma load_sphere args w :
  wants_input args = false →
  Meshpyvista3.load_volume open_pages args w
  = (say no_input_line w, inr (create_sphere_array 50)).
Proof.
  unfold wants_input, Meshpyvista3.load_volume.
  by destruct (input args) as [[|a path]|].
Qed.

(** Whatever [load_volume] returns is a stack of at least one page, all
    pages of one shape. *)
Theorem loaded_volume_is_stack args w wl volume :
  Meshpyvista3.load_volume open_pages args w = (wl, inr volume) →
  ∃ page, volume !! 0%nat = Some page
          ∧ Forall (λ q, shape2 q = shape2 page) volume.
Proof.
  destruct (wants_input args) eqn:Hin.
  - unfold wants_input in Hin. unfold Meshpyvista3.load_volume.
    destruct (input args) as [[|a path]|]; try done.
    unfold print, call, read_multi_tiff_pillow, and_then, stack;
      unfold mbind, M_bind.
    destruct (open_pages (String a path)) as [e|[|p rest]]; simpl; try done.
    case_bool_decide as Hall; [|done]. intros [= _ <-].
    exists p. split; [done|]. by constructor.
  - rewrite (load_sphere _ _ Hin). intros [= _ <-]. by apply sphere_is_stack.
Qed.

(** A run without input labels the generated sphere page by page: the
    count it prints is at least 25, one component for every page the ball
    of radius 12 meets. *)
Theorem sphere_run_counts_slices args w :
  wants_input args = false →
  cc_ok connectedComponents (create_sphere_array 50) →
  ∃ n, 25 ≤ n
       ∧ (console w ++ [no_input_line; detected_line n])
         `prefix_of` console (main open_pages args w).1.
Proof.
  intros Hin Hcc.
  exists (label_connected_components connectedComponents
            (create_sphere_array 50)).2.
  split.
  - pose proof (LabelExtras.count_between _ _ Hcc) as [Hlo _].
    rewrite (SphereFacts.sphere_foreground_slices 50) in Hlo by lia.
    exact Hlo.
  - etrans; [|apply main_console].
    rewrite (prepare_loaded _ _ _ _ _ (load_sphere args w Hin)).
    unfold say, detected, detected_line. cbn [fst console].
    by rewrite <- app_assoc.
Qed.

End Any.

(** *** The scripts that render one mesh *)

Section Single.
Context `{Kernel} (open_pages : string → result (list Slice)).

(** What a run that renders one mesh leaves behind, whatever its outcome:
    at most one mesh, coloured white; at most one file, under the output
    path as it was given; with an output path the mesh is saved before it
    is rendered; the window follows the outcome. *)
Local Abbreviation single_mesh_outcome args w out :=
  (∃ (rendered : list (Mesh * Color)) (exported : list (string * Mesh)),
     scene out.1 = scene w ++ rendered
     ∧ files out.1 = files w ++ exported
     ∧ rendered.*2 `prefix_of` [Named "white"]
     ∧ exported.*1 `prefix_of` option_list (output args)
     ∧ (wants_output args = false → exported = [])
     ∧ (wants_output args = true → rendered.*1 `prefix_of` exported.*2)
     ∧ (out.2 = inr () →
        length rendered = 1%nat
        ∧ (wants_output args = true → exported.*2 = rendered.*1))).

Ltac settle :=
  simpl; rewrite ?app_nil_r;
  repeat split; try done; try lia; try (intros; apply prefix_nil);
  try (intros; discriminate).

Lemma tail_outcome args m w :
  single_mesh_outcome args w
    ((Meshpyvista3.save_if_requested args m;;
      plotter_add_mesh m (Named "white");; plotter_show) w)
  ∧ window_follows_outcome w
      ((Meshpyvista3.save_if_requested args m;;
        plotter_add_mesh m (Named "white");; plotter_show) w).
Proof.
  unfold window_follows_outcome, wants_output, Meshpyvista3.save_if_requested,
    plotter_add_mesh, plotter_show, print, mesh_save, call, say;
    unfold mbind, M_bind, mret, M_ret.
  destruct (output args) as [[|a out]|]; simpl.
  - destruct (add_mesh m _) as [e|[]]; simpl;
      (split; [|done]); [exists [], []|exists [(m, Named "white")], []]; settle.
  - destruct (save m _) as [e|[]]; simpl; [split; [|done]; exists [], []; settle|].
    destruct (add_mesh m _) as [e|[]]; simpl; (split; [|done]).
    + exists [], [(String a out, m)]. settle.
    + exists [(m, Named "white")], [(String a out, m)]. settle.
  - destruct (add_mesh m _) as [e|[]]; simpl;
      (split; [|done]); [exists [], []|exists [(m, Named "white")], []]; settle.
Qed.

Lemma failed_outcome args (w w1 : World) (e : exn) :
  scene w1 = scene w → files w1 = files w → shown w1 = shown w →
  single_mesh_outcome args w (w1, @inl exn unit e)
  ∧ window_follows_outcome w (w1, @inl exn unit e).
Proof.
  intros Hs Hf Hsh. split; [|done]. exists [], []. simpl. rewrite Hs, Hf. settle.
Qed.

Lemma main3_outcome args w :
  single_mesh_outcome args w (Meshpyvista3.main open_pages args w)
  ∧ window_follows_outcome w (Meshpyvista3.main open_pages args w).
Proof.
  unfold Meshpyvista3.main.
  destruct (load_volume_frame open_pages args w) as (_ & Hs & Hf & Hsh).
  destruct (Meshpyvista3.load_volume open_pages args w)
    as [wl [e|volume]] eqn:Hload; simpl in Hs, Hf, Hsh.
  { rewrite (bind_err _ _ _ _ _ Hload). by apply failed_outcome. }
  rewrite (bind_ok _ _ _ _ _ Hload). rewrite call_bind.
  destruct (threshold 0.5 (wrap volume)) as [e|t]; [by apply failed_outcome|].
  rewrite call_bind.
  destruct (extract_surface t) as [e|m]; [by apply failed_outcome|].
  rewrite call_bind.
  destruct (smooth 10 m) as [e|sm]; [by apply failed_outcome|].
  unfold window_follows_outcome. rewrite <- Hs, <- Hf, <- Hsh.
  apply tail_outcome.
Qed.

Lemma main5_outcome args w :
  single_mesh_outcome args w (Meshpyvista5.main open_pages args w)
  ∧ window_follows_outcome w (Meshpyvista5.main open_pages args w).
Proof.
  unfold Meshpyvista5.main.
  destruct (load_volume_frame open_pages args w) as (_ & Hs & Hf & Hsh).
  destruct (Meshpyvista3.load_volume open_pages args w)
    as [wl [e|volume]] eqn:Hload; simpl in Hs, Hf, Hsh.
  { rewrite (bind_err _ _ _ _ _ Hload). by apply failed_outcome. }
  rewrite (bind_ok _ _ _ _ _ Hload). rewrite call_bind.
  destruct (threshold 0.5 (wrap volume)) as [e|t]; [by apply failed_outcome|].
  rewrite call_bind.
  destruct (extract_surface t) as [e|m]; [by apply failed_outcome|].
  rewrite call_bind.
  destruct (Meshpyvista5.refine (reduction args) m) as [e|fm];
    [by apply failed_outcome|].
  unfold window_follows_outcome. rewrite <- Hs, <- Hf, <- Hsh.
  apply tail_outcome.
Qed.

(** [meshpyvista3.py] and [meshpyvista5.py], whatever the outcome of the
    run: at most one mesh is rendered, in white; at most one file is
    written, under the output path as given, and none without an output
    path; the mesh is saved before it is rendered, so a rendered mesh has
    been saved, and a run that ends normally has rendered and saved the
    same mesh. *)
Theorem single_mesh_runs args w :
  single_mesh_outcome args w (Meshpyvista3.main open_pages args w)
  ∧ single_mesh_outcome args w (Meshpyvista5.main open_pages args w).
Proof. split; [apply main3_outcome|apply main5_outcome]. Qed.

Lemma main1_outcome w :
  single_mesh_outcome (MkArgs None None 0) w (Meshpyvista.main w)
  ∧ window_follows_outcome w (Meshpyvista.main w)
  ∧ console (Meshpyvista.main w).1 = console w.
Proof.
  unfold Meshpyvista.main. rewrite call_bind.
  destruct (threshold 0.5 _) as [e|t];
    [split; [|split]; by try apply (failed_outcome (MkArgs None None 0))|].
  rewrite call_bind.
  destruct (extract_surface t) as [e|m];
    [split; [|split]; by try apply (failed_outcome (MkArgs None None 0))|].
  rewrite call_bind.
  destruct (smooth 10 m) as [e|sm];
    [split; [|split]; by try apply (failed_outcome (MkArgs None None 0))|].
  pose proof (tail_outcome (MkArgs None None 0) sm w) as [Ho Hw].
  split; [exact Ho|]. split; [exact Hw|].
  unfold plotter_add_mesh, plotter_show; unfold mbind, M_bind.
  by destruct (add_mesh sm _) as [e|[]].
Qed.

(** [meshpyvista.py] prints nothing and writes no file; it renders at most
    one mesh, in white, and exactly one when it ends normally. *)
Theorem sphere_demo_run w :
  console (Meshpyvista.main w).1 = console w
  ∧ files (Meshpyvista.main w).1 = files w
  ∧ ∃ rendered,
      scene (Meshpyvista.main w).1 = scene w ++ rendered
      ∧ rendered.*2 `prefix_of` [Named "white"]
      ∧ ((Meshpyvista.main w).2 = inr () → length rendered = 1%nat).
Proof.
  destruct (main1_outcome w)
    as [(rendered & exported & Hs & Hf & Hwhite & _ & Hnone & _ & Hok) [_ Hc]].
  rewrite (Hnone eq_refl), app_nil_r in Hf.
  split; [done|]. split; [done|]. exists rendered.
  split; [done|]. split; [done|]. intros Hr. by apply Hok.
Qed.

End Single.

(** In each of the four scripts the window is shown when the run ends
    normally, and only then. *)
Theorem window_shown_on_success `{Kernel} `{Host}
    (open_pages : string → result (list Slice)) args w :
  window_follows_outcome w (Meshpyvista.main w)
  ∧ window_follows_outcome w (Meshpyvista3.main open_pages args w)
  ∧ window_follows_outcome w (Meshpyvista5.main open_pages args w)
  ∧ window_follows_outcome w (main open_pages args w).
Proof.
  split; [apply main1_outcome|]. split; [apply main3_outcome|].
  split; [apply main5_outcome|apply main7_shown].
Qed.

(** *** The labelling that ignores connectivity keeps the contract *)

Lemma blob_contract image :
  Cv2.contract image (Blob.one_label image).
Proof.
  unfold Blob.one_label.
  destruct (existsb _ (ravel2 image)) eqn:Hex.
  - apply existsb_exists in Hex as (v & Hv & Hne).
    apply negb_true_iff, Z.eqb_neq in Hne.
    split; simpl; [lia| |].
    + rewrite map_fmap. apply Forall2_fmap_r, Forall_Forall2_diag, Forall_forall.
      intros row _. simpl. rewrite map_fmap.
      apply Forall2_fmap_r, Forall_Forall2_diag, Forall_forall.
      intros p _. unfold Cv2.pixel_ok. simpl. destruct (Z.eqb_spec p 0); lia.
    + constructor; [|constructor].
      apply list_elem_of_In, elem_of_concat in Hv as (row & Hrow & Hv).
      apply Exists_exists. exists (map (λ v, if v =? 0 then 0 else 1) row).
      split.
      * rewrite map_fmap. apply list_elem_of_fmap. by exists row.
      * rewrite map_fmap. apply list_elem_of_fmap. exists v.
        split; [|done]. by destruct (Z.eqb_spec v 0).
  - split; simpl; [lia| |constructor].
    rewrite map_fmap. apply Forall2_fmap_r, Forall_Forall2_diag, Forall_forall.
    intros row Hrow. simpl. rewrite map_fmap.
    apply Forall2_fmap_r, Forall_Forall2_diag, Forall_forall.
    intros p Hp. unfold Cv2.pixel_ok. simpl.
    assert (p = 0) as ->; [|lia].
    destruct (Z.eqb_spec p 0) as [|Hne]; [done|exfalso].
    apply not_true_iff_false in Hex. apply Hex, existsb_exists.
    exists p. split; [|by apply negb_true_iff, Z.eqb_neq].
    apply list_elem_of_In, elem_of_concat. by exists row.
Qed.

Lemma blob_cc_ok volume : cc_ok Blob.one_label volume.
Proof. apply Forall_forall. intros page _. apply blob_contract. Qed.

(** *** Runs on the fixture *)

Lemma run_report_witness :
  ∃ n, (n ≤ length (Np.unique Fixture.demo_region_ids))%nat
       ∧ (scene (Fixture.run (-1) Fixture.shape_args).1).*2
         = (scene (H := Fixture.kernel (-1)) empty_world).*2
           ++ take n (random_colors (H0 := Fixture.host)
                        (length (Np.unique Fixture.demo_region_ids)))
       ∧ console (Fixture.run (-1) Fixture.shape_args).1
         = ["Loading multi-page TIFF from demo.tif...";
            "Detected 3 connected components."]%string
           ++ saving_lines Fixture.shape_args 0 n
       ∧ ((Fixture.run (-1) Fixture.shape_args).2 = inr () →
          n = length (Np.unique Fixture.demo_region_ids)).
Proof.
  apply (run_report (H := Fixture.kernel (-1)) (H0 := Fixture.host)
           Fixture.open_pages Fixture.shape_args empty_world
           {| console := ["Loading multi-page TIFF from demo.tif...";
                          "Detected 3 connected components."]%string;
              scene := []; files := []; shown := false |}
           Fixture.demo_components Fixture.demo_region_ids).
  vm_compute. reflexivity.
Defined.

Lemma fixture_no_smooth fragile lo hi scalars d patch n_iter :
  @threshold_range (Fixture.kernel fragile) lo hi scalars d = inr patch →
  ∃ e, smooth n_iter patch = inl e.
Proof.
  simpl. unfold Fixture.fthreshold_range. case_match; [|done].
  intros [= <-]. by eexists.
Qed.

Lemma first_region_witness :
  ∃ e, Fixture.run (-1) Fixture.shape_args
       = ({| console := ["Loading multi-page TIFF from demo.tif...";
                         "Detected 3 connected components."]%string;
             scene := []; files := []; shown := false |}, inl e).
Proof.
  apply (first_region_ends_run (H := Fixture.kernel (-1)) (H0 := Fixture.host)
           Fixture.open_pages Fixture.shape_args empty_world _
           Fixture.demo_components Fixture.demo_region_ids).
  - apply fixture_no_smooth.
  - vm_compute. reflexivity.
  - discriminate.
Defined.

Lemma unreadable_input_witness :
  Fixture.run (-1) (MkArgs (Some "missing.tif"%string) None 0.9)
  = (say "Loading multi-page TIFF from missing.tif..." empty_world,
     inl "FileNotFoundError"%string).
Proof.
  apply (unreadable_input_ends_run (H := Fixture.kernel (-1))
           (H0 := Fixture.host) Fixture.open_pages
           (MkArgs (Some "missing.tif"%string) None 0.9)
           "missing.tif"%string "FileNotFoundError"%string empty_world).
  - reflexivity.
  - discriminate.
  - reflexivity.
Defined.

Lemma loaded_volume_witness :
  ∃ page, Fixture.demo !! 0%nat = Some page
          ∧ Forall (λ q, shape2 q = shape2 page) Fixture.demo.
Proof.
  apply (loaded_volume_is_stack (H := Fixture.kernel (-1)) Fixture.open_pages
           Fixture.shape_args empty_world
           (say "Loading multi-page TIFF from demo.tif..." empty_world)).
  reflexivity.
Defined.

Lemma sphere_run_witness :
  ∃ n, 25 ≤ n
       ∧ (console (empty_world (H := Fixture.kernel (-1)))
          ++ [no_input_line; detected_line n])
         `prefix_of`
         console (main (H := Fixture.kernel (-1)) (H0 := Blob.blob_host)
                    Fixture.open_pages (MkArgs None None 0.9) empty_world).1.
Proof.
  apply (sphere_run_counts_slices (H := Fixture.kernel (-1)) (H0 := Blob.blob_host)
           Fixture.open_pages (MkArgs None None 0.9) empty_world).
  - reflexivity.
  - apply blob_cc_ok.
Defined.

End RunFacts.
